(** * The Watcher: the signal detector, the wallet tracker and the alert
    formatter of [watcher_bot.js], embedded as Rocq functions.

    JavaScript numbers are IEEE-754 doubles, which is exactly what Rocq's
    primitive [float] is, so USD amounts are [float]s and every comparison
    of the source is the corresponding [PrimFloat] comparison ([NaN]
    included).  Wall-clock readings ([Date.now()]) and trade timestamps are
    whole milliseconds, kept as [Z]; a timestamp can also be [NaN]
    ([new Date(x).getTime()] on an unreadable date), kept as [None].  The
    two plain objects used as dictionaries ([groups], [alertCooldowns]) keep
    what the source relies on: property lookup through the prototype,
    truthiness of the stored value, and the enumeration order of
    [Object.entries]. *)

From Stdlib Require Import ZArith NArith Ascii String List Bool Lia.
From Stdlib Require Import PrimFloat FloatOps SpecFloat FloatAxioms.
From stdpp Require Import base option list gmap strings sorting pretty.

Set Warnings "-inexact-float".

Local Open Scope string_scope.
Local Open Scope list_scope.
Local Open Scope Z_scope.

(** ** JavaScript values and objects, as far as the source uses them *)
Module JS.

(** What a [throw] carries; the source never inspects it beyond logging. *)
Inductive exn : Type :=
| TypeError (msg : string)
| Rejected (reason : string).

(** A computation that either completes or throws. *)
Inductive result (A : Type) : Type :=
| OK (a : A)
| Throw (e : exn).
Arguments OK {A} a.
Arguments Throw {A} e.

Definition bind {A B} (r : result A) (k : A -> result B) : result B :=
  match r with
  | OK a => k a
  | Throw e => Throw e
  end.

(** [ToBoolean] on an integral number: only zero is falsy. *)
Definition truthy_int (z : Z) : bool := negb (z =? 0).

(** [ToBoolean] on a string: only the empty string is falsy. *)
Definition truthy_str (s : string) : bool :=
  match s with
  | EmptyString => false
  | String _ _ => true
  end.

(** [ToBoolean] on a value that is a string, [null] or [undefined]. *)
Definition truthy (v : option string) : bool :=
  match v with
  | Some s => truthy_str s
  | None => false
  end.

(** [a || b] on such values. *)
Definition or_else (a b : option string) : option string :=
  if truthy a then a else b.

(** The property names every object literal inherits from
    [Object.prototype]; each of them reads as a truthy value (a function,
    or the prototype itself for [__proto__]) on an object that has no own
    property of that name. *)
Definition Object_prototype_keys : list string :=
  [ "constructor"; "__defineGetter__"; "__defineSetter__";
    "hasOwnProperty"; "__lookupGetter__"; "__lookupSetter__";
    "isPrototypeOf"; "propertyIsEnumerable"; "toString"; "valueOf";
    "__proto__"; "toLocaleString" ].

Definition inherited (k : string) : bool :=
  existsb (String.eqb k) Object_prototype_keys.

(** *** Property order of [Object.entries]

    Own string keys that are array indices (canonical decimal numerals
    below [2^32 - 1]) come first, in ascending numeric order; the others
    follow in insertion order. *)
Definition digit_of (a : ascii) : option N :=
  let n := N_of_ascii a in
  if ((48 <=? n) && (n <=? 57))%N then Some (n - 48)%N else None.

Fixpoint digits_value (acc : N) (s : string) : option N :=
  match s with
  | EmptyString => Some acc
  | String a s' =>
      match digit_of a with
      | Some d => digits_value (10 * acc + d)%N s'
      | None => None
      end
  end.

Definition array_index (s : string) : option N :=
  match s with
  | EmptyString => None
  | String "0" EmptyString => Some 0%N
  | String "0" _ => None
  | _ =>
      match digits_value 0 s with
      | Some n => if (n <? 2 ^ 32 - 1)%N then Some n else None
      | None => None
      end
  end.

Definition is_index (s : string) : bool :=
  match array_index s with Some _ => true | None => false end.

Definition index_of (s : string) : N := default 0%N (array_index s).

Definition index_le {V} (a b : string * V) : Prop :=
  (index_of a.1 <= index_of b.1)%N.

#[global] Instance index_le_dec {V} (a b : string * V) :
  Decision (index_le a b).
Proof. unfold index_le. apply _. Defined.

(** The entries of an object whose own properties were created in the
    order of [props]. *)
Definition Object_entries {V} (props : list (string * V))
  : list (string * V) :=
  merge_sort index_le (List.filter (fun e => is_index e.1) props)
  ++ List.filter (fun e => negb (is_index e.1)) props.

End JS.

Export JS.

(** ** The market detector ([class MarketDetector]) *)
Module Detector.

Inductive Side : Type := Buy | Sell.

(** The object literal handed to [addTrade]. *)
Record Trade : Type := mkTrade {
  timestamp : option Z;   (* epoch ms; [None] is NaN *)
  amountUSD : float;
  user : string;
  marketId : string;      (* as the property key it is used as *)
  marketName : string;
  marketSlug : string;
  outcome : string;
  side : Side
}.

Record MarketDetector : Type := mkDetector {
  tradeWindow : list Trade;
  alertCooldowns : gmap string Z
}.

(** [constructor()] *)
Definition new_detector : MarketDetector :=
  {| tradeWindow := []; alertCooldowns := ∅ |}.

(** [t.timestamp > cutoff]; false on a NaN timestamp. *)
Definition newer_than (cutoff : Z) (t : Trade) : bool :=
  match timestamp t with
  | Some ts => cutoff <? ts
  | None => false
  end.

(** [addTrade(trade)], with [now] the value [Date.now()] returns. *)
Definition addTrade (d : MarketDetector) (trade : Trade) (now : Z)
  : MarketDetector :=
  let pushed := tradeWindow d ++ [trade] in
  let cutoff := now - 60000 in
  {| tradeWindow := List.filter (newer_than cutoff) pushed;
     alertCooldowns := alertCooldowns d |}.

(** One entry of [groups]. *)
Record Group : Type := mkGroup {
  buys : list Trade;
  sells : list Trade;
  meta : Trade
}.

Definition push_trade (t : Trade) (g : Group) : Group :=
  match side t with
  | Buy => {| buys := buys g ++ [t]; sells := sells g; meta := meta g |}
  | Sell => {| buys := buys g; sells := sells g ++ [t]; meta := meta g |}
  end.

(** Own-property lookup and in-place update on [groups], the properties
    kept in creation order. *)
Fixpoint own (k : string) (groups : list (string * Group)) : option Group :=
  match groups with
  | [] => None
  | (k', g) :: rest => if String.eqb k k' then Some g else own k rest
  end.

Fixpoint update (k : string) (f : Group -> Group)
    (groups : list (string * Group)) : list (string * Group) :=
  match groups with
  | [] => []
  | (k', g) :: rest =>
      if String.eqb k k' then (k', f g) :: rest
      else (k', g) :: update k f rest
  end.

(** The body of the [forEach] that fills [groups].  On a key inherited
    from [Object.prototype] the test [!groups[k]] sees the inherited
    value, nothing is created, and [groups[k].buys.push] throws. *)
Definition group_step (groups : list (string * Group)) (t : Trade)
  : result (list (string * Group)) :=
  let k := marketId t in
  match own k groups with
  | Some _ => OK (update k (push_trade t) groups)
  | None =>
      if inherited k
      then Throw (TypeError "Cannot read properties of undefined (reading 'push')")
      else
        let created := groups ++ [(k, {| buys := []; sells := []; meta := t |})] in
        OK (update k (push_trade t) created)
  end.

Fixpoint group_trades (groups : list (string * Group)) (window : list Trade)
  : result (list (string * Group)) :=
  match window with
  | [] => OK groups
  | t :: rest => JS.bind (group_step groups t) (fun g => group_trades g rest)
  end.

Inductive AlertType : Type := WOLF_PACK | VOLUME_SURGE.

Record Signal : Type := mkSignal {
  type : AlertType;
  sig_marketName : string;
  sig_outcome : string;
  totalVol : float;
  uniqueWallets : nat;
  ratio : float;
  sig_marketId : string
}.

(** [list.reduce((sum, t) => sum + t.amountUSD, 0)] *)
Definition volume (l : list Trade) : float :=
  fold_left (fun sum t => PrimFloat.add sum (amountUSD t)) l 0%float.

(** [new Set(buys.map(t => t.user)).size] *)
Definition unique_users (l : list Trade) : nat :=
  size (list_to_set (map user l) : gset string).

(** [this.alertCooldowns[marketId] && (now - this.alertCooldowns[marketId] < 300000)] *)
Definition cooling (cooldowns : gmap string Z) (now : Z) (k : string) : bool :=
  match cooldowns !! k with
  | Some last => truthy_int last && (now - last <? 300000)
  | None => false
  end.

(** [sellVol === 0 ? buyVol : buyVol / sellVol] *)
Definition ratio_of (buyVol sellVol : float) : float :=
  if PrimFloat.eqb sellVol 0 then buyVol else PrimFloat.div buyVol sellVol.

(** [sellVol > 0 && ratio < 3.0] *)
Definition ratio_filtered (buyVol sellVol : float) : bool :=
  PrimFloat.ltb 0 sellVol && PrimFloat.ltb (ratio_of buyVol sellVol) 3.

(** The value [alertType] holds after conditions A and B. *)
Definition classify (uniqueBuyers : nat) (buyVol : float) : option AlertType :=
  if (3 <=? uniqueBuyers)%nat && PrimFloat.ltb 10000 buyVol then Some WOLF_PACK
  else if PrimFloat.ltb 15000 buyVol then Some VOLUME_SURGE
  else None.

(** The body of the loop over [Object.entries(groups)]; a [continue] leaves
    the state as it is. *)
Definition analyze (now : Z) (st : gmap string Z * list Signal)
    (e : string * Group) : gmap string Z * list Signal :=
  let '(cooldowns, signals) := st in
  let '(k, data) := e in
  if cooling cooldowns now k then st
  else
    let buyVol := volume (buys data) in
    let sellVol := volume (sells data) in
    let ratio := ratio_of buyVol sellVol in
    if ratio_filtered buyVol sellVol then st
    else
      let uniqueBuyers := unique_users (buys data) in
      match classify uniqueBuyers buyVol with
      | Some alertType =>
          (<[k := now]> cooldowns,
           signals ++ [ {| type := alertType;
                           sig_marketName := marketName (meta data);
                           sig_outcome := outcome (meta data);
                           totalVol := buyVol;
                           uniqueWallets := uniqueBuyers;
                           ratio := ratio;
                           sig_marketId := k |} ])
      | None => st
      end.

(** [checkSignals()], with [now] the value [Date.now()] returns: the
    signals and the detector afterwards, or the exception thrown while
    grouping (before anything was changed). *)
Definition checkSignals (d : MarketDetector) (now : Z)
  : result (list Signal * MarketDetector) :=
  JS.bind (group_trades [] (tradeWindow d)) (fun groups =>
    let '(cooldowns, signals) :=
      fold_left (analyze now) (Object_entries groups) (alertCooldowns d, []) in
    OK (signals, {| tradeWindow := tradeWindow d; alertCooldowns := cooldowns |})).

End Detector.


(** ** Text rendering *)
Module Render.

(** The two number-to-text built-ins the source calls.  Their digit-level
    behaviour is the runtime's (ECMA-262 [Number.prototype.toFixed],
    ECMA-402 [Intl.NumberFormat]); the source only chooses the arguments,
    which are kept here. *)
Class NumberFormat : Type := {
  (** [x.toFixed(fractionDigits)] *)
  toFixed : nat -> float -> string;
  (** [x.toLocaleString('en-US', { maximumFractionDigits })] *)
  toLocaleString_en_US : nat -> float -> string
}.

Definition nl : string := String "010"%char EmptyString.
Definition dq : string := String "034"%char EmptyString.

(** A string or a missing value ([undefined]) inside a template literal.
    The records below give a field as [None] when it is absent; a field
    that is present with the JSON value [null], which a template literal
    prints as "null", is not among the values they represent. *)
Definition interpolate (v : option string) : string := default "undefined" v.

(** A small non-negative integer inside a template literal. *)
Definition show_nat (n : nat) : string := pretty n.

(** [parseFloat(v)] on a value that is a number or missing. The argument
    goes through [ToString], which loses the sign of zero. *)
Definition parseFloat (v : option float) : float :=
  match v with
  | Some x => if PrimFloat.eqb x 0 then 0%float else x
  | None => nan
  end.

(** [v || 0] on a value that is a number or missing: zero and [NaN] are
    falsy. *)
Definition or_zero (v : option float) : float :=
  match v with
  | Some x => if PrimFloat.eqb x 0 || is_nan x then 0%float else x
  | None => 0%float
  end.

(** [sub] occurs in [s]. *)
Definition contains (sub s : string) : Prop :=
  exists pre post, s = pre +:+ sub +:+ post.

End Render.

Export Render.

(** ** A reference rendering of numbers

    [toFixed] after ECMA-262 and [toLocaleString] after ECMA-402 (rounding
    mode half-expand, grouping by three, no minimum of fraction digits), on
    the exact value of the double.  Magnitudes of [10^21] and above, which
    [toFixed] hands to [ToString] for exponent notation, are outside this
    reference: they are printed in full.  [toLocaleString] in the engines
    starts from the shortest digits of the double, which are its exact
    digits below [2^53].  Where the parts of a text stand is proved for
    any [NumberFormat]; what the digits are is proved of this one. *)
Module Reference.

(** [m * 2^e * 10^digits] rounded to the nearest integer, ties upwards. *)
Definition scaled (digits : nat) (m : positive) (e : Z) : N :=
  let num := (Npos m * 10 ^ N.of_nat digits)%N in
  if 0 <=? e then (num * 2 ^ Z.to_N e)%N
  else
    let den := (2 ^ Z.to_N (- e))%N in
    ((2 * num + den) / (2 * den))%N.

Fixpoint zeros (n : nat) : string :=
  match n with
  | O => ""
  | S n' => String "0" (zeros n')
  end.

(** The decimal numeral of [n] with a point before its last [digits]
    digits. *)
Definition point (digits : nat) (n : N) : string * string :=
  let numeral := pretty n in
  let padded := zeros (S digits - String.length numeral) +:+ numeral in
  let cut := (String.length padded - digits)%nat in
  (substring 0 cut padded, substring cut digits padded).

(** Commas between groups of three digits, counted from the right;
    [n] is the length of [s]. *)
Fixpoint grouped (s : string) (n : nat) : string :=
  match s with
  | EmptyString => ""
  | String c rest =>
      let left := pred n in
      String c ((if (0 <? left)%nat && (left mod 3 =? 0)%nat then "," else "")
                +:+ grouped rest left)
  end.

Fixpoint strip_zeros (s : string) : string :=
  match s with
  | EmptyString => ""
  | String c rest =>
      match strip_zeros rest with
      | EmptyString => if Ascii.eqb c "0" then "" else String c ""
      | kept => String c kept
      end
  end.

Definition sign (negative : bool) : string := if negative then "-" else "".

Definition toFixed_ref (digits : nat) (x : float) : string :=
  match Prim2SF x with
  | S754_nan => "NaN"
  | S754_infinity s => sign s +:+ "Infinity"
  | S754_zero _ =>
      let '(int, frac) := point digits 0 in
      match digits with O => int | S _ => int +:+ "." +:+ frac end
  | S754_finite s m e =>
      let '(int, frac) := point digits (scaled digits m e) in
      sign s +:+ match digits with O => int | S _ => int +:+ "." +:+ frac end
  end.

Definition toLocaleString_ref (maximumFractionDigits : nat) (x : float) : string :=
  let render (s : bool) (n : N) :=
    let '(int, frac) := point maximumFractionDigits n in
    sign s +:+ grouped int (String.length int) +:+
    match strip_zeros frac with
    | EmptyString => ""
    | kept => "." +:+ kept
    end in
  match Prim2SF x with
  | S754_nan => "NaN"
  | S754_infinity s => sign s +:+ "∞"
  | S754_zero s => render s 0%N
  | S754_finite s m e => render s (scaled maximumFractionDigits m e)
  end.

#[global] Instance reference_format : NumberFormat :=
  {| toFixed := toFixed_ref; toLocaleString_en_US := toLocaleString_ref |}.

End Reference.

(** ** [formatAlert] *)
Module Format.
Import Detector.

(** The string the source stores in [alertType]. *)
Definition tag (ty : AlertType) : string :=
  match ty with
  | WOLF_PACK => "WOLF_PACK"
  | VOLUME_SURGE => "VOLUME_SURGE"
  end.

Definition default_title : string := "⚠️ <b>Market Alert</b>".
Definition wolf_pack_title : string := "🚨 <b>Wolf Pack Cluster Detected</b>".
Definition volume_surge_title : string := "🌊 <b>High Volume Surge Detected</b>".

Definition title_of (ty : AlertType) : string :=
  let title := default_title in
  let title := if String.eqb (tag ty) "WOLF_PACK" then wolf_pack_title else title in
  let title := if String.eqb (tag ty) "VOLUME_SURGE" then volume_surge_title else title in
  title.

Definition ratioStr `{NumberFormat} (r : float) : string :=
  if PrimFloat.ltb 100 r then "MAX" else toFixed 1 r.

Definition volStr `{NumberFormat} (v : float) : string :=
  toLocaleString_en_US 0 v.

Definition market_link (marketId : string) : string :=
  "<a href=" +:+ dq +:+ "https://polymarket.com/market/" +:+ marketId
    +:+ dq +:+ ">View Market</a>".

Definition formatAlert `{NumberFormat} (alert : Signal) : string :=
  title_of (type alert) +:+ nl +:+ nl +:+
  "🎯 <b>Market:</b> " +:+ sig_marketName alert +:+ nl +:+
  "📈 <b>Outcome:</b> " +:+ sig_outcome alert +:+ nl +:+
  "💰 <b>Total Vol:</b> $" +:+ volStr (totalVol alert) +:+ nl +:+
  "👥 <b>Unique Wallets:</b> " +:+ show_nat (uniqueWallets alert) +:+ nl +:+
  "⚖️ <b>Buy Pressure:</b> " +:+ ratioStr (ratio alert) +:+ "x" +:+ nl +:+
  "⏱ <b>Time Window:</b> 60s" +:+ nl +:+ nl +:+
  market_link (sig_marketId alert).

End Format.

(** ** What the bot does to the outside *)
Module Bot.

Inductive effect : Type :=
| SendMessage (chatId text : string)
| UpdateLastHash (chatId address : string) (hash : option string)
| ConsoleError (text : string).

End Bot.

Export Bot.

(** ** The watchlist tracker ([scanSpecificWallets]) *)
Module Tracker.

(** An element of [user.wallets]; [lastHash] is [null] until the first
    sync. *)
Record Wallet : Type := mkWallet {
  address : string;
  name : string;
  lastHash : option string
}.

(** A record of the upstream activity feed; each field may be missing. *)
Record Activity : Type := mkActivity {
  act_id : option string;
  transactionHash : option string;
  act_type : option string;
  act_side : option string;
  size : option float;
  price : option float;
  act_outcome : option string;
  title : option string;
  slug : option string
}.

(** [res.data]: [null] (no body), a JSON object (which has no [length]),
    or an array whose entries may be [null]. *)
Inductive payload : Type :=
| NoBody
| NotAnArray
| Records (entries : list (option Activity)).

(** What the world does while one wallet is scanned: the outcome of
    [axios.get], and of [User.updateOne] should it be called. *)
Record World : Type := mkWorld {
  fetched : result payload;
  updateOne : result unit
}.

(** [trade.id || trade.transactionHash] *)
Definition currentHash (trade : Activity) : option string :=
  or_else (act_id trade) (transactionHash trade).

(** [w.lastHash && w.lastHash !== currentHash] *)
Definition changed (w : Wallet) (current : option string) : bool :=
  match lastHash w with
  | Some prior =>
      truthy_str prior &&
      negb (match current with
            | Some c => String.eqb prior c
            | None => false
            end)
  | None => false
  end.

Definition is_trade (trade : Activity) : bool :=
  match act_type trade with
  | Some ty => String.eqb ty "TRADE"
  | None => false
  end.

Definition is_buy (trade : Activity) : bool :=
  match act_side trade with
  | Some s => String.eqb s "BUY"
  | None => false
  end.

Definition alert_text `{NumberFormat} (w : Wallet) (trade : Activity) : string :=
  let amount :=
    toFixed 2 (parseFloat (Some (PrimFloat.mul (or_zero (size trade))
                                               (or_zero (price trade))))) in
  "🔔 <b>" +:+ name w +:+ " Alert</b>" +:+ nl +:+
  "Action: " +:+ (if is_buy trade then "🟢 Buy" else "🔴 Sell") +:+ nl +:+
  "Asset: " +:+ interpolate (or_else (act_outcome trade) (Some "Position")) +:+ nl +:+
  "Market: " +:+ interpolate (title trade) +:+ nl +:+
  "Value: $" +:+ amount +:+ nl +:+
  "<a href=" +:+ dq +:+ "https://polymarket.com/market/" +:+ interpolate (slug trade)
    +:+ dq +:+ ">View Market</a>".

(** [await User.updateOne(..., { $set: { "wallets.$.lastHash": hash } })]:
    the effects so far, then the write or the exception it raises. *)
Definition store (world : World) (chatId : string) (w : Wallet)
    (hash : option string) (done_ : list effect) : list effect * option exn :=
  match updateOne world with
  | OK _ => (done_ ++ [UpdateLastHash chatId (address w) hash], None)
  | Throw e => (done_, Some e)
  end.

(** The body of the [try] for one wallet: the effects performed, the
    exception raised if any, and whether [updatesFound] was set. *)
Definition try_wallet `{NumberFormat} (chatId : string) (w : Wallet) (world : World)
  : list effect * option exn * bool :=
  match fetched world with
  | Throw e => ([], Some e, false)
  | OK NoBody =>
      ([], Some (TypeError "Cannot read properties of null (reading 'length')"), false)
  | OK NotAnArray => ([], None, false)
  | OK (Records []) => ([], None, false)
  | OK (Records (None :: _)) =>
      ([], Some (TypeError "Cannot read properties of null (reading 'id')"), false)
  | OK (Records (Some trade :: _)) =>
      let current := currentHash trade in
      if changed w current then
        let sent :=
          if is_trade trade then [SendMessage chatId (alert_text w trade)] else [] in
        (store world chatId w current sent, is_trade trade)
      else if negb (truthy (lastHash w)) then
        (store world chatId w current [], false)
      else ([], None, false)
  end.

(** One iteration of the loop: the [try] and its [catch]. *)
Definition scan_wallet `{NumberFormat} (chatId : string) (w : Wallet) (world : World)
  : list effect * bool :=
  let '(effects, raised, found) := try_wallet chatId w world in
  match raised with
  | Some _ => (effects ++ [ConsoleError ("Error scanning wallet " +:+ name w)], found)
  | None => (effects, found)
  end.

(** The loop over [user.wallets], each wallet paired with what the world
    answers while it is scanned. *)
Fixpoint scan_loop `{NumberFormat} (chatId : string) (ws : list (Wallet * World))
    (updatesFound : bool) : list effect * bool :=
  match ws with
  | [] => ([], updatesFound)
  | (w, world) :: rest =>
      let '(effects, found) := scan_wallet chatId w world in
      let '(later, final) := scan_loop chatId rest (updatesFound || found) in
      (effects ++ later, final)
  end.

(** [scanSpecificWallets(chatId, isManual)]; [findOne] is the outcome of
    [User.findOne], which is awaited outside any [try], and [worlds i] is
    what the world answers while the wallet at position [i] is scanned. *)
Definition scanSpecificWallets `{NumberFormat} (findOne : result (option (list Wallet)))
    (worlds : nat -> World) (chatId : string) (isManual : bool)
  : result (list effect) :=
  JS.bind findOne (fun user =>
    match user with
    | None | Some [] =>
        OK (if isManual then [SendMessage chatId "📭 Your watchlist is empty."] else [])
    | Some wallets =>
        let visits := imap (fun i w => (w, worlds i)) wallets in
        let '(effects, updatesFound) := scan_loop chatId visits false in
        OK (effects ++
            (if isManual && negb updatesFound
             then [SendMessage chatId "✅ No new trades found since last check."]
             else []))
    end).

(** What [updateOne] does to the stored document: the positional [$]
    addresses the first wallet with that address. *)
Fixpoint set_lastHash (addr : string) (hash : option string) (wallets : list Wallet)
  : list Wallet :=
  match wallets with
  | [] => []
  | w :: rest =>
      if String.eqb (address w) addr
      then {| address := address w; name := name w; lastHash := hash |} :: rest
      else w :: set_lastHash addr hash rest
  end.

Definition apply_effect (wallets : list Wallet) (e : effect) : list Wallet :=
  match e with
  | UpdateLastHash _ addr hash => set_lastHash addr hash wallets
  | _ => wallets
  end.

End Tracker.

(** ** The global scanner ([scanGlobalMarket]) *)
Module Ingest.
Import Detector Format.

(** An element of the hot-market list. *)
Record Market : Type := mkMarket {
  id : string;
  question : string;
  slug : string
}.

(** A record of the per-market trade feed; each field may be missing. *)
Record RawTrade : Type := mkRawTrade {
  raw_timestamp : option Z;
  raw_side : option string;
  raw_size : option float;
  raw_price : option float;
  taker : option string;
  proxyWallet : option string;
  raw_outcome : option string
}.

(** [new Date(v).getTime()] on a number or a missing value
    ([undefined]): the time value when it is within the range of [Date],
    [NaN] otherwise.  A timestamp that is present with the JSON value
    [null], for which [Date] gives time 0, is not among the values
    [RawTrade] represents. *)
Definition getTime (v : option Z) : option Z :=
  match v with
  | Some ms => if Z.abs ms <=? 8640000000000000 then Some ms else None
  | None => None
  end.

(** The object literal built for [detector.addTrade]. *)
Definition to_trade (market : Market) (t : RawTrade) : Trade :=
  {| timestamp := getTime (raw_timestamp t);
     amountUSD := PrimFloat.mul (parseFloat (raw_size t)) (parseFloat (raw_price t));
     user := interpolate (or_else (or_else (taker t) (proxyWallet t)) (Some "Unknown"));
     marketId := id market;
     marketName := question market;
     marketSlug := slug market;
     outcome := interpolate (or_else (raw_outcome t) (Some "Yes/No"));
     side := Buy |}.

Definition is_BUY (t : RawTrade) : bool :=
  match raw_side t with
  | Some s => String.eqb s "BUY"
  | None => false
  end.

(** [trades.forEach(t => { if (t.side === 'BUY') detector.addTrade(...) })]:
    the detector and the number of clock readings taken so far.  A [null]
    entry makes [t.side] throw, which ends this market's feed. *)
Fixpoint feed (clock : nat -> Z) (market : Market) (trades : list (option RawTrade))
    (st : MarketDetector * nat) : MarketDetector * nat :=
  match trades with
  | [] => st
  | None :: _ => st
  | Some t :: rest =>
      let '(d, tick) := st in
      if is_BUY t
      then feed clock market rest (addTrade d (to_trade market t) (clock tick), S tick)
      else feed clock market rest st
  end.

(** One per-market task, from the moment its response arrives; a failed
    fetch is swallowed by the task's own [catch]. *)
Definition scan_market (clock : nat -> Z) (st : MarketDetector * nat)
    (arrival : Market * result (list (option RawTrade))) : MarketDetector * nat :=
  match arrival.2 with
  | OK trades => feed clock arrival.1 trades st
  | Throw _ => st
  end.

(** The fan-out of alerts: every signal to every user. *)
Definition broadcast `{NumberFormat} (signals : list Signal) (users : list string)
  : list effect :=
  flat_map (fun sig => map (fun chatId => SendMessage chatId (formatAlert sig)) users)
           signals.

Definition scan_error (e : exn) : effect :=
  ConsoleError ("Global Scan Error: " +:+
                match e with TypeError m => m | Rejected m => m end).

(** [scanGlobalMarket()]: [hot] is the outcome of the hot-list fetch with,
    for each market, the outcome of its trade fetch, in the order the
    responses arrive; [users] is the outcome of [User.find]; [clock n] is
    the [n]-th reading of [Date.now()]. *)
Definition scanGlobalMarket `{NumberFormat} (clock : nat -> Z)
    (hot : result (list (Market * result (list (option RawTrade)))))
    (users : result (list string)) (d : MarketDetector)
  : list effect * MarketDetector :=
  match hot with
  | Throw e => ([scan_error e], d)
  | OK arrivals =>
      let '(fed, tick) := fold_left (scan_market clock) arrivals (d, 0%nat) in
      match checkSignals fed (clock tick) with
      | Throw e => ([scan_error e], fed)
      | OK (signals, after) =>
          match signals with
          | [] => ([], after)
          | _ :: _ =>
              match users with
              | Throw e => ([scan_error e], after)
              | OK chats => (broadcast signals chats, after)
              end
          end
      end
  end.

End Ingest.

(** ** Readings of the detector's state used to state its properties *)
Module Views.
Import Detector.

(** The trades of market [k], and its two sides, in window order. *)
Definition market_trades (k : string) (w : list Trade) : list Trade :=
  List.filter (fun t => String.eqb (marketId t) k) w.

Definition is_Buy (t : Trade) : bool :=
  match side t with Buy => true | Sell => false end.

Definition buys_in (k : string) (w : list Trade) : list Trade :=
  List.filter is_Buy (market_trades k w).

Definition sells_in (k : string) (w : list Trade) : list Trade :=
  List.filter (fun t => negb (is_Buy t)) (market_trades k w).

(** What [groups[k]] holds once the trades [w] have been added to an
    object where it held [before]. *)
Definition grown (k : string) (w : list Trade) (before : option Group)
  : option Group :=
  match before with
  | Some g =>
      Some {| buys := buys g ++ buys_in k w;
              sells := sells g ++ sells_in k w;
              meta := meta g |}
  | None =>
      match market_trades k w with
      | [] => None
      | t :: _ =>
          Some {| buys := buys_in k w; sells := sells_in k w; meta := t |}
      end
  end.

(** What the loop body decides for one entry, given the cooldowns it
    sees: the signal it pushes, if any. *)
Definition verdict (cooldowns : gmap string Z) (now : Z) (e : string * Group)
  : option Signal :=
  if cooling cooldowns now e.1 then None
  else
    let buyVol := volume (buys e.2) in
    let sellVol := volume (sells e.2) in
    if ratio_filtered buyVol sellVol then None
    else
      match classify (unique_users (buys e.2)) buyVol with
      | Some alertType =>
          Some {| type := alertType;
                  sig_marketName := marketName (meta e.2);
                  sig_outcome := outcome (meta e.2);
                  totalVol := buyVol;
                  uniqueWallets := unique_users (buys e.2);
                  ratio := ratio_of buyVol sellVol;
                  sig_marketId := e.1 |}
      | None => None
      end.

(** The signal pushed for the partition [g] of market [k]. *)
Definition signal_for (k : string) (g : Group) (ty : AlertType) : Signal :=
  {| type := ty;
     sig_marketName := marketName (meta g);
     sig_outcome := outcome (meta g);
     totalVol := volume (buys g);
     uniqueWallets := unique_users (buys g);
     ratio := ratio_of (volume (buys g)) (volume (sells g));
     sig_marketId := k |}.

(** The signals of a batch that are about market [k]. *)
Definition about (k : string) (signals : list Signal) : list Signal :=
  List.filter (fun s => String.eqb (sig_marketId s) k) signals.

(** The partition of market [k] in a window, as [checkSignals] forms it. *)
Definition partition (window : list Trade) (k : string) : option Group :=
  match group_trades [] window with
  | OK groups => own k groups
  | Throw _ => None
  end.

(** What a partition yields when no cooldown is active for its market. *)
Definition yield (k : string) (g : Group) : option Signal :=
  if ratio_filtered (volume (buys g)) (volume (sells g)) then None
  else signal_for k g <$> classify (unique_users (buys g)) (volume (buys g)).

(** The calls the poll loop makes on the detector, each with the clock
    reading it samples. *)
Inductive call : Type :=
| AddTrade (trade : Trade) (now : Z)
| CheckSignals (now : Z).

Definition call_time (c : call) : Z :=
  match c with
  | AddTrade _ now => now
  | CheckSignals now => now
  end.

(** One call: the signals it returns and the detector afterwards.  A
    [checkSignals] that throws returns nothing and has changed nothing. *)
Definition step (d : MarketDetector) (c : call) : list Signal * MarketDetector :=
  match c with
  | AddTrade trade now => ([], addTrade d trade now)
  | CheckSignals now =>
      match checkSignals d now with
      | OK r => r
      | Throw _ => ([], d)
      end
  end.

(** A sequence of calls: all the signals returned, in order, and the
    detector at the end. *)
Fixpoint run (d : MarketDetector) (calls : list call) : list Signal * MarketDetector :=
  match calls with
  | [] => ([], d)
  | c :: rest =>
      let '(first, d1) := step d c in
      let '(later, d2) := run d1 rest in
      (first ++ later, d2)
  end.

(** A trade that passes the pruning filter at every reading of [clock]. *)
Definition young (clock : nat -> Z) (t : Trade) : Prop :=
  forall n, newer_than (clock n - 60000) t = true.

End Views.

(** ** Sample data *)
Module Samples.
Import Detector.

(** A buy or sell of [amount] USD by [who] on market [k] at time [ts]. *)
Definition trade (ts : Z) (amount : float) (who k : string) (s : Side) : Trade :=
  {| timestamp := Some ts; amountUSD := amount; user := who; marketId := k;
     marketName := "Will it rain?"; marketSlug := "will-it-rain";
     outcome := "Yes"; side := s |}.

Definition detector_with (w : list Trade) : MarketDetector :=
  {| tradeWindow := w; alertCooldowns := ∅ |}.

(** Three strangers buying 10001 USD together on market 7. *)
Definition pack : list Trade :=
  [ trade 1000 4000 "ann" "7" Buy;
    trade 2000 3000 "bob" "7" Buy;
    trade 3000 3001 "cy" "7" Buy ].

(** The same pack, recent enough to survive a pruning at time 100000. *)
Definition young_pack : list Trade :=
  [ trade 90000 4000 "ann" "7" Buy;
    trade 91000 3000 "bob" "7" Buy;
    trade 92000 3001 "cy" "7" Buy ].

(** The same with 10000 USD exactly. *)
Definition pack_at_threshold : list Trade :=
  [ trade 1000 4000 "ann" "7" Buy;
    trade 2000 3000 "bob" "7" Buy;
    trade 3000 3000 "cy" "7" Buy ].

(** One buyer, 15001 USD. *)
Definition whale : list Trade := [ trade 1000 15001 "ann" "7" Buy ].

Definition signal (ty : AlertType) (vol : float) (n : nat) (r : float) (k : string)
  : Signal :=
  {| type := ty; sig_marketName := "Will it rain?"; sig_outcome := "Yes";
     totalVol := vol; uniqueWallets := n; ratio := r; sig_marketId := k |}.

(** One buyer against one seller of 10000 USD: 2.99 times, then 3 times
    the sell volume. *)
Definition outweighed : list Trade :=
  [ trade 1000 29900 "ann" "7" Buy; trade 2000 10000 "bob" "7" Sell ].

Definition dominant : list Trade :=
  [ trade 1000 30000 "ann" "7" Buy; trade 2000 10000 "bob" "7" Sell ].

Definition dominant_group : Group :=
  {| buys := [trade 1000 30000 "ann" "7" Buy];
     sells := [trade 2000 10000 "bob" "7" Sell];
     meta := trade 1000 30000 "ann" "7" Buy |}.

(** An upstream record of the per-market feed, and the market it is
    fetched for: a buy of 16000 x 0.5 = 8000 USD. *)
Definition upstream_buy : Ingest.RawTrade :=
  {| Ingest.raw_timestamp := Some 90000; Ingest.raw_side := Some "BUY";
     Ingest.raw_size := Some 16000%float; Ingest.raw_price := Some 0.5%float;
     Ingest.taker := Some "ann"; Ingest.proxyWallet := None;
     Ingest.raw_outcome := Some "Yes" |}.

Definition market7 : Ingest.Market :=
  {| Ingest.id := "7"; Ingest.question := "Will it rain?";
     Ingest.slug := "will-it-rain" |}.

(** The same record without its [size] field. *)
Definition sizeless_buy : Ingest.RawTrade :=
  {| Ingest.raw_timestamp := Some 90000; Ingest.raw_side := Some "BUY";
     Ingest.raw_size := None; Ingest.raw_price := Some 0.5%float;
     Ingest.taker := Some "dan"; Ingest.proxyWallet := None;
     Ingest.raw_outcome := Some "Yes" |}.

(** Markets "zz", "12" and "5", each with one buy of 20000 USD, in this
    order of arrival. *)
Definition three_markets : list Trade :=
  [ trade 1000 20000 "ann" "zz" Buy;
    trade 2000 20000 "bob" "12" Buy;
    trade 3000 20000 "cy" "5" Buy ].

(** A window pruned at time 100000 holds nothing older than 40001. *)
Definition at_horizon : Trade := trade 40000 500 "ann" "7" Buy.
Definition inside_horizon : Trade := trade 40001 500 "ann" "7" Buy.

Definition pack_group : Group :=
  {| buys := pack; sells := []; meta := trade 1000 4000 "ann" "7" Buy |}.

Definition pack_alert : Signal := signal WOLF_PACK 10001 3 10001 "7".

(** The detector after [checkSignals] at time [now] fired for market 7. *)
Definition stamped (w : list Trade) (now : Z) : MarketDetector :=
  {| tradeWindow := w; alertCooldowns := {[ "7" := now ]} |}.

(** A watched wallet, before and after its first sync, and the activity
    records the upstream answers with. *)
Definition whale_wallet (seen : option string) : Tracker.Wallet :=
  {| Tracker.address := "0xabc"; Tracker.name := "Moby"; Tracker.lastHash := seen |}.

Definition activity (fingerprint : option string) (hash : option string)
    (kind : string) : Tracker.Activity :=
  {| Tracker.act_id := fingerprint; Tracker.transactionHash := hash;
     Tracker.act_type := Some kind; Tracker.act_side := Some "BUY";
     Tracker.size := Some 1500%float; Tracker.price := Some 0.42%float;
     Tracker.act_outcome := Some "Yes"; Tracker.title := Some "Will it rain?";
     Tracker.slug := Some "will-it-rain" |}.

Definition answering (a : Tracker.Activity) : Tracker.World :=
  {| Tracker.fetched := OK (Tracker.Records [Some a]); Tracker.updateOne := OK tt |}.

Definition unreachable : Tracker.World :=
  {| Tracker.fetched := Throw (Rejected "Request failed with status code 502");
     Tracker.updateOne := OK tt |}.

End Samples.

(** ** The classification with the thresholds as parameters

    The deployments differ in the two constants only: 10000 and 15000 in
    [watcher_bot.js], 100 and 150 in the variant with the lowered limits. *)
Module Variants.
Import Detector.

(** Conditions A and B with [buyVol > cluster] and [buyVol > surge]. *)
Definition classify_with (cluster surge : float) (uniqueBuyers : nat) (buyVol : float)
  : option AlertType :=
  if (3 <=? uniqueBuyers)%nat && PrimFloat.ltb cluster buyVol then Some WOLF_PACK
  else if PrimFloat.ltb surge buyVol then Some VOLUME_SURGE
  else None.

(** The variant's [checkSignals] body: 3+ strangers above 100, anyone
    above 150. *)
Definition classify_lowered : nat -> float -> option AlertType :=
  classify_with 100 150.

End Variants.

(** ** The tracker over the stored document, pass after pass *)
Module Passes.
Import Tracker.

(** The document after the writes of a pass. *)
Definition stored_after (wallets : list Wallet) (effects : list effect) : list Wallet :=
  fold_left apply_effect effects wallets.

(** What a write to the wallets of address [addr] does to one wallet of
    that address. *)
Definition touch (addr : string) (hash : option string) (w : Wallet) : Wallet :=
  if String.eqb (address w) addr
  then {| address := address w; name := name w; lastHash := hash |}
  else w.

Definition touched (w : Wallet) (e : effect) : Wallet :=
  match e with
  | UpdateLastHash _ addr hash => touch addr hash w
  | _ => w
  end.

(** A wallet once the writes of its own scan have reached the store. *)
Definition after_scan `{NumberFormat} (chatId : string) (v : Wallet * World) : Wallet :=
  fold_left touched (scan_wallet chatId v.1 v.2).1 v.1.

(** The body of the first [setInterval]: every user in turn, each with the
    outcome of its [User.findOne] and the answers of the world during its
    scan.  Nothing catches a rejection of [scanSpecificWallets]: the loop
    ends there, with the effects performed so far. *)
Fixpoint watch_loop `{NumberFormat}
    (users : list (string * result (option (list Wallet)) * (nat -> World)))
  : list effect * option exn :=
  match users with
  | [] => ([], None)
  | (chatId, findOne, worlds) :: rest =>
      match scanSpecificWallets findOne worlds chatId false with
      | OK effects =>
          let '(later, raised) := watch_loop rest in
          (effects ++ later, raised)
      | Throw e => ([], Some e)
      end
  end.

End Passes.

(** ** The chat interface ([bot.on('message')], [bot.on('callback_query')]) *)
Module Chat.
Import Tracker Passes.

(** [String.prototype.trim] and [toLowerCase], taken as given. *)
Class StringOps : Type := {
  trim : string -> string;
  toLowerCase : string -> string
}.

(** [s.startsWith(p)] *)
Definition startsWith (s p : string) : bool := String.prefix p s.

Fixpoint skip (n : nat) (s : string) : string :=
  match n, s with
  | S n', String _ s' => skip n' s'
  | _, _ => s
  end.

(** [s.replace(pat, rep)] for a string [pat] and a [rep] without [$]:
    the first occurrence of [pat] is replaced. *)
Fixpoint replace (s pat rep : string) : string :=
  if String.prefix pat s then rep +:+ skip (String.length pat) s
  else match s with
       | EmptyString => EmptyString
       | String c s' => String c (replace s' pat rep)
       end.

Inductive Step : Type := WAITING_FOR_ADDRESS | WAITING_FOR_NAME.

(** An entry of [userState]: [{ step, tempAddress }], the latter
    [undefined] until an address has been pasted. *)
Record Conversation : Type := mkConversation {
  step : option Step;
  tempAddress : option string
}.

(** [{ step: null }] *)
Definition idle : Conversation := {| step := None; tempAddress := None |}.

(** The in-memory [userState] and the [User] collection, both keyed by
    the chat id as a string; the store is taken to answer every call. *)
Record Session : Type := mkSession {
  userState : gmap string Conversation;
  users : gmap string (list Wallet)
}.

Record Button : Type := mkButton {
  text : string;
  callback_data : string
}.

Inductive action : Type :=
| Effect (e : effect)
| SendKeyboard (chatId text : string) (inline_keyboard : list (list Button))
| AnswerCallbackQuery (id text : string)
| DeleteMessage (chat message_id : Z).

Definition say (chatId text : string) : list action := [Effect (SendMessage chatId text)].

Definition ADD_WALLET : string := "➕ Add Wallet".
Definition VIEW_WATCHLIST : string := "📋 View Watchlist".
Definition SCAN_MY_LIST : string := "🚀 Scan My List".
Definition HELP : string := "❓ Help".

Definition helpMsg : string :=
  "ℹ️ **How to use Alpha Scout:**" +:+ nl +:+ nl +:+
  "1️⃣ **Sentinel (Private Spy):**" +:+ nl +:+
  "Click 'Add Wallet' to track a specific person. You get an alert whenever they trade."
    +:+ nl +:+ nl +:+
  "2️⃣ **Wolf Pack (Global Radar):**" +:+ nl +:+
  "You don't need to do anything! The bot automatically scans the Top 20 markets. If 3+ strangers coordinate a buy >$10k, everyone gets an alert."
    +:+ nl +:+ nl +:+
  "3️⃣ **Volume Surge:**" +:+ nl +:+
  "Automatic alert if ANYONE buys >$15k in a single clip.".

(** [w => [{ text: `🗑 Remove ${w.name}`, callback_data: `DEL_${w.address}` }]] *)
Definition remove_button (w : Wallet) : list Button :=
  [{| text := "🗑 Remove " +:+ name w; callback_data := "DEL_" +:+ address w |}].

Definition with_conversation (s : Session) (chatId : string) (c : Conversation) : Session :=
  {| userState := <[chatId := c]> (userState s); users := users s |}.

(** The [WAITING_FOR_NAME] branch: the wallet is pushed unless five are
    listed; nothing looks at the addresses already listed. *)
Definition name_given (s : Session) (chatId address text : string) : Session * list action :=
  let wallets := default [] (users s !! chatId) in
  if (5 <=? length wallets)%nat then
    (with_conversation s chatId idle, say chatId "⚠️ Limit Reached (Max 5 Wallets).")
  else
    ({| userState := <[chatId := idle]> (userState s);
        users := <[chatId := wallets ++ [mkWallet address text None]]> (users s) |},
     say chatId ("✅ **Added!**" +:+ nl +:+ "Now tracking: **" +:+ text +:+ "**")).

(** The three [if]s that follow the add-wallet flow, in the order of the
    source; only the empty watchlist returns early. *)
Definition commands `{NumberFormat} (s : Session) (chatId text : string)
    (worlds : nat -> World) : result (Session * list action) :=
  let user := users s !! chatId in
  if String.eqb text VIEW_WATCHLIST
     && match user with None | Some [] => true | Some _ => false end
  then OK (s, say chatId "📭 Your watchlist is empty.")
  else
    let viewed :=
      if String.eqb text VIEW_WATCHLIST
      then [SendKeyboard chatId "📋 **Your Watchlist:**"
              (map remove_button (default [] user))]
      else [] in
    JS.bind
      (if String.eqb text SCAN_MY_LIST
       then JS.bind (scanSpecificWallets (OK user) worlds chatId true) (fun effects =>
              OK (match user with
                  | Some wallets => <[chatId := stored_after wallets effects]> (users s)
                  | None => users s
                  end,
                  say chatId "🔎 Scanning your targets..." ++ map Effect effects))
       else OK (users s, []))
      (fun '(stored, scanned) =>
         let helped := if String.eqb text HELP then say chatId helpMsg else [] in
         OK ({| userState := userState s; users := stored |},
             viewed ++ scanned ++ helped)).

(** [bot.on('message', ...)] for a message of chat [chat] whose [text] may
    be absent, run to its end.  The result is [None] where a wallet
    without an address would be pushed, which [Wallet] does not
    represent. *)
Definition on_message `{StringOps} `{NumberFormat}
    (s : Session) (chat : Z) (text : option string) (worlds : nat -> World)
  : result (option (Session * list action)) :=
  let chatId := pretty chat in
  match text with
  | None => Throw (TypeError "Cannot read properties of undefined (reading 'startsWith')")
  | Some text =>
      if startsWith text "/" then OK (Some (s, []))
      else
        let c := default idle (userState s !! chatId) in
        let s := with_conversation s chatId c in
        if String.eqb text ADD_WALLET then
          OK (Some (with_conversation s chatId
                      {| step := Some WAITING_FOR_ADDRESS; tempAddress := tempAddress c |},
                    say chatId "🕵️ **Paste the Polymarket Address:**"))
        else
          match step c with
          | Some WAITING_FOR_ADDRESS =>
              OK (Some (with_conversation s chatId
                          {| step := Some WAITING_FOR_NAME;
                             tempAddress := Some (trim text) |},
                        say chatId "🏷️ **Give this whale a name:**"))
          | Some WAITING_FOR_NAME =>
              OK (option_map (fun address => name_given s chatId address text)
                    (tempAddress c))
          | None => JS.bind (commands s chatId text worlds) (fun r => OK (Some r))
          end
  end.

(** [{ $pull: { wallets: { address } } }] on the document of [chatId] *)
Definition pull (chatId address : string) (users : gmap string (list Wallet))
  : gmap string (list Wallet) :=
  match users !! chatId with
  | Some wallets =>
      <[chatId := List.filter (fun w => negb (String.eqb (Tracker.address w) address))
                    wallets]> users
  | None => users
  end.

(** [bot.on('callback_query', ...)] *)
Definition on_callback_query (s : Session) (id : string) (data : option string)
    (chat message_id : Z) : result (Session * list action) :=
  match data with
  | None => Throw (TypeError "Cannot read properties of undefined (reading 'startsWith')")
  | Some data =>
      if startsWith data "DEL_" then
        OK ({| userState := userState s;
               users := pull (pretty chat) (replace data "DEL_" "") (users s) |},
            [AnswerCallbackQuery id "Deleted"; DeleteMessage chat message_id])
      else OK (s, [])
  end.

(** What reaches the bot, and the session it leaves behind; a handler that
    throws does so before it has changed anything. *)
Inductive event : Type :=
| Message (chat : Z) (text : option string) (worlds : nat -> World)
| CallbackQuery (id : string) (data : option string) (chat message_id : Z).

Definition handle `{StringOps} `{NumberFormat} (s : Session) (e : event)
  : result (option (Session * list action)) :=
  match e with
  | Message chat text worlds => on_message s chat text worlds
  | CallbackQuery id data chat message_id =>
      JS.bind (on_callback_query s id data chat message_id) (fun r => OK (Some r))
  end.

Definition after `{StringOps} `{NumberFormat} (s : Session) (e : event) : Session :=
  match handle s e with
  | OK (Some (s', _)) => s'
  | _ => s
  end.

Definition replies `{StringOps} `{NumberFormat} (s : Session) (e : event) : list action :=
  match handle s e with
  | OK (Some (_, actions)) => actions
  | _ => []
  end.

(** A conversation that waits for a name has an address to go with it. *)
Definition coherent (s : Session) : Prop :=
  forall chatId c, userState s !! chatId = Some c ->
    step c = Some WAITING_FOR_NAME -> is_Some (tempAddress c).

Definition within_limit (s : Session) : Prop :=
  forall chatId wallets, users s !! chatId = Some wallets -> (length wallets <= 5)%nat.

Definition started : Session := {| userState := ∅; users := ∅ |}.

End Chat.

(** ** The watchlist functions of the second build *)
Module Watchlist.
Import Tracker Chat.

Definition MAX_WALLETS : nat := 5.

Definition getWallets (users : gmap string (list Wallet)) (chatId : string) : list Wallet :=
  default [] (users !! chatId).

Definition addWallet `{StringOps} (users : gmap string (list Wallet))
    (chatId address name : string) : string * gmap string (list Wallet) :=
  let cleanAddress := toLowerCase (trim address) in
  let wallets := default [] (users !! chatId) in
  if (MAX_WALLETS <=? length wallets)%nat then ("LIMIT_REACHED", users)
  else if existsb (fun w => String.eqb (Tracker.address w) cleanAddress) wallets
  then ("DUPLICATE", users)
  else ("SUCCESS", <[chatId := wallets ++ [mkWallet cleanAddress name None]]> users).

Definition removeWallet (users : gmap string (list Wallet)) (chatId address : string)
  : gmap string (list Wallet) :=
  match users !! chatId with
  | Some wallets =>
      <[chatId := List.filter (fun w => negb (String.eqb (Tracker.address w) address))
                    wallets]> users
  | None => users
  end.

Inductive call : Type :=
| AddWallet (chatId address name : string)
| RemoveWallet (chatId address : string).

Definition perform `{StringOps} (users : gmap string (list Wallet)) (c : call)
  : gmap string (list Wallet) :=
  match c with
  | AddWallet chatId address name => (addWallet users chatId address name).2
  | RemoveWallet chatId address => removeWallet users chatId address
  end.

Definition tidy (users : gmap string (list Wallet)) : Prop :=
  forall chatId wallets, users !! chatId = Some wallets ->
    (length wallets <= MAX_WALLETS)%nat /\ NoDup (map Tracker.address wallets).

End Watchlist.

(** ** Reference behaviour of the string built-ins, for worked examples *)
Module TextReference.
Import Chat.

Definition bytes (codes : list nat) : string :=
  fold_right (fun n s => String (ascii_of_nat n) s) EmptyString codes.

(** The code points of [WhiteSpace] and [LineTerminator], in UTF-8. *)
Definition white_space : list string :=
  map bytes
    [[9]; [10]; [11]; [12]; [13]; [32]; [194; 160]; [225; 154; 128];
     [226; 128; 128]; [226; 128; 129]; [226; 128; 130]; [226; 128; 131];
     [226; 128; 132]; [226; 128; 133]; [226; 128; 134]; [226; 128; 135];
     [226; 128; 136]; [226; 128; 137]; [226; 128; 138]; [226; 128; 168];
     [226; 128; 169]; [226; 128; 175]; [226; 129; 159]; [227; 128; 128];
     [239; 187; 191]]%nat.

Fixpoint strip (spaces : list string) (fuel : nat) (s : string) : string :=
  match fuel with
  | O => s
  | S fuel' =>
      match List.find (fun w => String.prefix w s) spaces with
      | Some w => strip spaces fuel' (skip (String.length w) s)
      | None => s
      end
  end.

Definition trimStart (s : string) : string := strip white_space (String.length s) s.

Definition trimEnd (s : string) : string :=
  String.rev (strip (map String.rev white_space) (String.length s) (String.rev s)).

Definition trim_ref (s : string) : string := trimEnd (trimStart s).

(** Exact on strings whose cased letters are ASCII. *)
Definition lower (c : ascii) : ascii :=
  let n := nat_of_ascii c in
  if (65 <=? n)%nat && (n <=? 90)%nat then ascii_of_nat (n + 32) else c.

Fixpoint toLowerCase_ref (s : string) : string :=
  match s with
  | EmptyString => EmptyString
  | String c s' => String (lower c) (toLowerCase_ref s')
  end.

#[export] Instance reference_strings : StringOps :=
  {| trim := trim_ref; toLowerCase := toLowerCase_ref |}.

End TextReference.

Module ChatSamples.
Import Tracker Chat Samples.

Definition chat_of (e : event) : Z :=
  match e with
  | Message chat _ _ => chat
  | CallbackQuery _ _ chat _ => chat
  end.

(** Chat 42 with the whale listed twice, under two names. *)
Definition twice_listed : Session :=
  {| userState := ∅;
     users := {[ "42" := [whale_wallet (Some "tx1");
                          {| address := "0xabc"; name := "Ahab"; lastHash := None |};
                          {| address := "0xdef"; name := "Ishmael"; lastHash := None |}] ]} |}.

Definition quiet : nat -> World := fun _ => unreachable.

End ChatSamples.

(** ** Reading rendered numbers back

    What the words of a rendering mean, independently of how it is
    produced: the value of a decimal numeral, the shape of an integer
    grouped by thousands and of a number with one decimal place, and the
    integer nearest to a ratio. *)
Module Numerals.

Definition digit_value (c : ascii) : option N :=
  let n := nat_of_ascii c in
  if (48 <=? n)%nat && (n <=? 57)%nat then Some (N.of_nat (n - 48)) else None.

Definition is_digit (c : ascii) : bool :=
  match digit_value c with Some _ => true | None => false end.

Fixpoint numeral_from (acc : N) (s : string) : option N :=
  match s with
  | EmptyString => Some acc
  | String c rest =>
      match digit_value c with
      | Some d => numeral_from (10 * acc + d)%N rest
      | None => None
      end
  end.

Fixpoint digits (s : string) : bool :=
  match s with
  | EmptyString => true
  | String c rest => is_digit c && digits rest
  end.

(** The number a non-empty string of decimal digits denotes. *)
Definition numeral (s : string) : option N :=
  match s with
  | EmptyString => None
  | _ => numeral_from 0 s
  end.

(** [s] without the separator [sep]. *)
Fixpoint without (sep : ascii) (s : string) : string :=
  match s with
  | EmptyString => EmptyString
  | String c rest =>
      if Ascii.eqb c sep then without sep rest else String c (without sep rest)
  end.

(** Nothing, or a comma and three digits, again and again. *)
Fixpoint groups_of_three (s : string) : bool :=
  match s with
  | EmptyString => true
  | String sep (String a (String b (String c rest))) =>
      Ascii.eqb sep "," && is_digit a && is_digit b && is_digit c
      && groups_of_three rest
  | _ => false
  end.

Fixpoint leading (k : nat) (s : string) : bool :=
  match k, s with
  | O, _ => groups_of_three s
  | S k', String a rest => is_digit a && leading k' rest
  | S _, EmptyString => false
  end.

(** One to three digits, then groups of three digits behind commas: an
    integer with thousands separators and no decimals. *)
Definition thousands (s : string) : bool := leading 1 s || leading 2 s || leading 3 s.

(** A point and one digit, and nothing behind. *)
Definition closes (s : string) : bool :=
  match s with
  | String p (String d EmptyString) => Ascii.eqb p "." && is_digit d
  | _ => false
  end.

(** Digits, a point and one digit. *)
Fixpoint one_decimal (s : string) : bool :=
  match s with
  | EmptyString => false
  | String a rest => is_digit a && (closes rest || one_decimal rest)
  end.

(** The sign and the magnitude, as a fraction, of a finite double. *)
Definition exact (x : float) : option (bool * N * N) :=
  match Prim2SF x with
  | S754_zero s => Some (s, 0%N, 1%N)
  | S754_finite s m e =>
      Some (if 0 <=? e then (s, (Npos m * 2 ^ Z.to_N e)%N, 1%N)
            else (s, Npos m, (2 ^ Z.to_N (- e))%N))
  | _ => None
  end.

(** [n] is the integer nearest to [num / den], the upper one of two. *)
Definition nearest (num den n : N) : Prop :=
  (2 * n * den <= 2 * num + den /\ 2 * num + den < 2 * n * den + 2 * den)%N.

End Numerals.
Module FormatSamples.
Import Detector Samples.

(** A buy and a sell without bound on market 7: the window [checkSignals]
    divides infinity by infinity on. *)
Definition unbounded : list Trade :=
  [ trade 1000 infinity "ann" "7" Buy; trade 2000 infinity "bob" "7" Sell ].

End FormatSamples.

(** * Properties *)

(** ** Objects as dictionaries *)
Module ObjectFacts.

Lemma filter_split_perm {A} (f : A -> bool) (l : list A) :
  List.filter f l ++ List.filter (fun x => negb (f x)) l ≡ₚ l.
Proof.
  induction l as [|x l IH]; simpl; [done|].
  destruct (f x); simpl.
  - by rewrite IH.
  - rewrite <- Permutation_middle. by rewrite IH.
Qed.

(** [Object.entries] enumerates exactly the own properties, each once. *)
Lemma Object_entries_perm {V} (props : list (string * V)) :
  Object_entries props ≡ₚ props.
Proof.
  unfold Object_entries.
  rewrite merge_sort_Permutation.
  apply filter_split_perm.
Qed.

Lemma Object_entries_elem {V} (props : list (string * V)) e :
  e ∈ Object_entries props <-> e ∈ props.
Proof. by rewrite Object_entries_perm. Qed.

Lemma Object_entries_keys {V} (props : list (string * V)) :
  NoDup (map fst props) -> NoDup (map fst (Object_entries props)).
Proof.
  intros Hnd.
  assert (map fst (Object_entries props) ≡ₚ map fst props) as ->; [|done].
  apply Permutation_map, Object_entries_perm.
Qed.

(** Array indices precede the other keys, and are in ascending order. *)
Lemma Object_entries_sorted {V} (props : list (string * V)) :
  exists indexed named,
    Object_entries props = indexed ++ named /\
    Sorted index_le indexed /\
    Forall (fun e => is_index e.1 = true) indexed /\
    Forall (fun e => is_index e.1 = false) named /\
    named = List.filter (fun e => negb (is_index e.1)) props.
Proof.
  eexists _, _. split; [reflexivity|]. repeat split.
  - apply Sorted_merge_sort. intros a b. unfold index_le. lia.
  - rewrite merge_sort_Permutation. apply Forall_forall.
    intros e He%list_elem_of_In%filter_In. tauto.
  - apply Forall_forall.
    intros e [_ He]%list_elem_of_In%filter_In. by apply negb_true_iff in He.
Qed.

End ObjectFacts.

(** ** Grouping the window by market *)
Module GroupFacts.
Import Detector Views ObjectFacts.

Lemma own_update k k' f groups :
  own k (update k' f groups) =
  if String.eqb k k' then f <$> own k groups else own k groups.
Proof.
  induction groups as [|[k0 g0] groups IH]; simpl.
  - by destruct (String.eqb k k').
  - destruct (String.eqb_spec k' k0) as [->|Hne]; simpl;
      destruct (String.eqb_spec k k0) as [->|Hne']; simpl; try done.
    all: try (destruct (String.eqb_spec k0 k'); [congruence|done]).
    all: try apply IH.
Qed.

Lemma keys_update k f groups : map fst (update k f groups) = map fst groups.
Proof.
  induction groups as [|[k0 g0] groups IH]; simpl; [done|].
  destruct (String.eqb k k0); simpl; [done|]. by rewrite IH.
Qed.

Lemma own_snoc k k' g groups :
  own k (groups ++ [(k', g)]) =
  match own k groups with
  | Some x => Some x
  | None => if String.eqb k k' then Some g else None
  end.
Proof.
  induction groups as [|[k0 g0] groups IH]; simpl; [done|].
  by destruct (String.eqb k k0).
Qed.

Lemma own_None_keys k groups : own k groups = None <-> k ∉ map fst groups.
Proof.
  induction groups as [|[k0 g0] groups IH]; simpl.
  - split; [intros _; apply not_elem_of_nil|done].
  - rewrite not_elem_of_cons. destruct (String.eqb_spec k k0) as [->|Hne].
    + split; [done|]. intros [? _]. done.
    + rewrite IH. tauto.
Qed.

Lemma own_elem k g groups : own k groups = Some g -> (k, g) ∈ groups.
Proof.
  induction groups as [|[k0 g0] groups IH]; simpl; [done|].
  destruct (String.eqb_spec k k0) as [->|Hne].
  - intros [= ->]. apply list_elem_of_here.
  - intros H. apply list_elem_of_further. auto.
Qed.

Lemma elem_own k g groups :
  NoDup (map fst groups) -> (k, g) ∈ groups -> own k groups = Some g.
Proof.
  induction groups as [|[k0 g0] groups IH]; simpl.
  - intros _ H. by apply elem_of_nil in H.
  - intros [Hk0 Hnd]%NoDup_cons [Heq|Hin]%elem_of_cons.
    + injection Heq as -> ->. by rewrite String.eqb_refl.
    + destruct (String.eqb_spec k k0) as [->|Hne]; [|auto].
      exfalso. apply Hk0. apply (list_elem_of_fmap_2 fst) in Hin. done.
Qed.

Lemma grown_nil k before : grown k [] before = before.
Proof.
  destruct before as [[b s m]|]; simpl; [|done].
  by rewrite !app_nil_r.
Qed.

Lemma buys_in_cons k t w :
  buys_in k (t :: w) =
  (if String.eqb (marketId t) k && is_Buy t then [t] else []) ++ buys_in k w.
Proof.
  unfold buys_in, market_trades. simpl.
  destruct (String.eqb (marketId t) k); simpl; [|done].
  by destruct (is_Buy t).
Qed.

Lemma sells_in_cons k t w :
  sells_in k (t :: w) =
  (if String.eqb (marketId t) k && negb (is_Buy t) then [t] else []) ++ sells_in k w.
Proof.
  unfold sells_in, market_trades. simpl.
  destruct (String.eqb (marketId t) k); simpl; [|done].
  by destruct (is_Buy t).
Qed.

Lemma market_trades_cons k t w :
  market_trades k (t :: w) =
  (if String.eqb (marketId t) k then [t] else []) ++ market_trades k w.
Proof. unfold market_trades. simpl. by destruct (String.eqb (marketId t) k). Qed.

Lemma grown_cons k t w before :
  grown k (t :: w) before = grown k w (grown k [t] before).
Proof.
  destruct before as [[b s m]|]; cbn -[market_trades buys_in sells_in].
  - rewrite (buys_in_cons k t w), (sells_in_cons k t w).
    rewrite (buys_in_cons k t []), (sells_in_cons k t []).
    unfold buys_in, sells_in, market_trades; simpl.
    by rewrite !app_nil_r, !app_assoc.
  - rewrite (market_trades_cons k t w), (market_trades_cons k t []).
    rewrite (buys_in_cons k t w), (sells_in_cons k t w).
    rewrite (buys_in_cons k t []), (sells_in_cons k t []).
    destruct (String.eqb (marketId t) k); simpl; [|done].
    unfold buys_in, sells_in, market_trades; simpl.
    by rewrite ?app_nil_r.
Qed.

Lemma push_trade_grown t g :
  Some (push_trade t g) = grown (marketId t) [t] (Some g).
Proof.
  unfold push_trade, grown. rewrite buys_in_cons, sells_in_cons.
  rewrite String.eqb_refl. unfold buys_in, sells_in, market_trades, is_Buy.
  simpl. destruct (side t); simpl; by rewrite ?app_nil_r.
Qed.

Lemma grown_other k t before :
  marketId t <> k -> grown k [t] before = before.
Proof.
  intros Hne. destruct before as [[b s m]|]; simpl.
  - rewrite buys_in_cons, sells_in_cons.
    destruct (String.eqb_spec (marketId t) k); [done|]. simpl.
    unfold buys_in, sells_in, market_trades. simpl. by rewrite !app_nil_r.
  - by destruct (String.eqb_spec (marketId t) k).
Qed.

(** One [forEach] step adds the trade to its market's group, creating
    the group on the market's first trade, and keeps the keys distinct. *)
Lemma group_step_spec groups t groups' :
  group_step groups t = OK groups' ->
  NoDup (map fst groups) ->
  NoDup (map fst groups') /\
  (own (marketId t) groups = None -> inherited (marketId t) = false) /\
  forall k, own k groups' = grown k [t] (own k groups).
Proof.
  unfold group_step. intros Hstep Hnd.
  destruct (own (marketId t) groups) as [g|] eqn:Hown.
  - injection Hstep as <-. rewrite keys_update. split; [done|]. split; [done|].
    intros k. rewrite own_update.
    destruct (String.eqb_spec k (marketId t)) as [->|Hne].
    + rewrite Hown. simpl. apply push_trade_grown.
    + by rewrite grown_other.
  - destruct (inherited (marketId t)) eqn:Hin; [done|].
    injection Hstep as <-. rewrite keys_update, map_app. simpl.
    split; [|split; [done|]].
    + apply NoDup_app. split; [done|]. split.
      * intros k Hk Hk'%list_elem_of_singleton. subst k.
        by apply own_None_keys in Hown.
      * apply NoDup_singleton.
    + intros k. rewrite own_update, own_snoc.
      destruct (String.eqb_spec k (marketId t)) as [->|Hne].
      * rewrite Hown. cbn -[grown]. rewrite push_trade_grown.
        cbn -[market_trades buys_in sells_in].
        rewrite buys_in_cons, sells_in_cons, market_trades_cons.
        rewrite String.eqb_refl. simpl.
        unfold buys_in, sells_in, market_trades. simpl.
        by rewrite ?app_nil_r.
      * rewrite grown_other by done. by destruct (own k groups).
Qed.

Lemma group_trades_spec w : forall groups groups',
  group_trades groups w = OK groups' ->
  NoDup (map fst groups) ->
  NoDup (map fst groups') /\
  forall k, own k groups' = grown k w (own k groups).
Proof.
  induction w as [|t w IH]; intros groups groups' Hrun Hnd; simpl in Hrun.
  - injection Hrun as <-. split; [done|]. intros k. by rewrite grown_nil.
  - destruct (group_step groups t) as [mid|e] eqn:Hstep; simpl in Hrun; [|done].
    destruct (group_step_spec _ _ _ Hstep Hnd) as (Hnd' & _ & Hmid).
    destruct (IH _ _ Hrun Hnd') as (Hnd'' & Hfin).
    split; [done|]. intros k. rewrite Hfin, Hmid. symmetry. apply grown_cons.
Qed.

(** Grouping succeeds exactly when no trade carries a key that
    [Object.prototype] defines. *)
Lemma group_trades_total w : forall groups,
  (forall k, is_Some (own k groups) -> inherited k = false) ->
  (exists groups', group_trades groups w = OK groups') <->
  Forall (fun t => inherited (marketId t) = false) w.
Proof.
  induction w as [|t w IH]; intros groups Hown; simpl.
  - split; [constructor|eauto].
  - unfold group_step at 1.
    destruct (own (marketId t) groups) as [g|] eqn:Hg; simpl.
    + rewrite IH.
      * rewrite Forall_cons. assert (inherited (marketId t) = false) by eauto.
        tauto.
      * intros k. rewrite own_update.
        destruct (String.eqb_spec k (marketId t)) as [->|]; [|by auto].
        intros _. eauto.
    + destruct (inherited (marketId t)) eqn:Hin; simpl.
      * split; [by intros [? ?]|]. intros [? _]%Forall_cons. congruence.
      * rewrite IH; [rewrite Forall_cons; tauto|].
        intros k. rewrite own_update, own_snoc.
        destruct (String.eqb_spec k (marketId t)) as [->|]; [done|].
        destruct (own k groups) eqn:Hk; [|by intros [? ?]].
        intros _. apply Hown. by rewrite Hk.
Qed.

(** The groups [checkSignals] works on: distinct keys, and under each
    key the market's buys and sells in window order with its first trade
    as [meta]. *)
Lemma groups_of_window w groups :
  group_trades [] w = OK groups ->
  NoDup (map fst groups) /\
  forall k g, (k, g) ∈ groups <-> grown k w None = Some g.
Proof.
  intros Hrun.
  destruct (group_trades_spec w [] groups Hrun) as [Hnd Hown]; [constructor|].
  split; [done|]. intros k g. specialize (Hown k).
  change (own k []) with (@None Group) in Hown. rewrite <- Hown. split.
  - by apply elem_own.
  - apply own_elem.
Qed.

End GroupFacts.

(** ** The analysis loop of [checkSignals] *)
Module LoopFacts.
Import Detector Views ObjectFacts GroupFacts.

Lemma analyze_verdict now cooldowns signals e :
  analyze now (cooldowns, signals) e =
  match verdict cooldowns now e with
  | Some s => (<[e.1 := now]> cooldowns, signals ++ [s])
  | None => (cooldowns, signals)
  end.
Proof.
  destruct e as [k g]. unfold analyze, verdict. simpl.
  destruct (cooling cooldowns now k); [done|].
  destruct (ratio_filtered _ _); [done|].
  by destruct (classify _ _).
Qed.

Lemma verdict_ext c1 c2 now e :
  c1 !! e.1 = c2 !! e.1 -> verdict c1 now e = verdict c2 now e.
Proof. intros H. unfold verdict, cooling. by rewrite H. Qed.

Lemma verdict_id cooldowns now e s :
  verdict cooldowns now e = Some s -> sig_marketId s = e.1.
Proof.
  unfold verdict. destruct (cooling _ _ _); [done|].
  destruct (ratio_filtered _ _); [done|].
  destruct (classify _ _); [|done]. by intros [= <-].
Qed.

(** Entries have distinct keys, so every iteration reads the cooldown its
    market had when the call began. *)
Lemma fold_analyze now c0 es : forall c signals,
  NoDup (map fst es) ->
  (forall e, e ∈ es -> c !! e.1 = c0 !! e.1) ->
  exists c',
    fold_left (analyze now) es (c, signals)
      = (c', signals ++ omap (verdict c0 now) es) /\
    (forall e, e ∈ es -> is_Some (verdict c0 now e) -> c' !! e.1 = Some now) /\
    (forall k, (forall e, e ∈ es -> e.1 = k -> verdict c0 now e = None) ->
               c' !! k = c !! k).
Proof.
  induction es as [|e es IH]; intros c signals Hnd Hsame; cbn [fold_left].
  - exists c. simpl. rewrite app_nil_r. split; [done|]. split; [|done].
    intros e He. by apply elem_of_nil in He.
  - apply NoDup_cons in Hnd as [Hfresh Hnd].
    assert (forall e', e' ∈ es -> e'.1 <> e.1) as Hne.
    { intros e' He' Heq. apply Hfresh. rewrite <- Heq.
      by apply (list_elem_of_fmap_2 fst). }
    rewrite analyze_verdict.
    rewrite (verdict_ext c c0) by (apply Hsame; left).
    destruct (verdict c0 now e) as [s|] eqn:Hv.
    + destruct (IH (<[e.1 := now]> c) (signals ++ [s]) Hnd) as (c' & Hrun & Hhit & Hmiss).
      { intros e' He'. rewrite lookup_insert_ne by (symmetry; auto).
        apply Hsame. by right. }
      exists c'. simpl. rewrite Hv, Hrun, <- app_assoc. split; [done|]. split.
      * intros e' [->|He']%elem_of_cons Hsome; [|by auto].
        rewrite Hmiss, lookup_insert_eq; [done|].
        intros e' He' Heq. by destruct (Hne e' He').
      * intros k Hk. rewrite Hmiss.
        -- apply lookup_insert_ne. intros Heq.
           specialize (Hk e (list_elem_of_here _ _) Heq). congruence.
        -- intros e' He'. apply Hk. by right.
    + destruct (IH c signals Hnd) as (c' & Hrun & Hhit & Hmiss).
      { intros e' He'. apply Hsame. by right. }
      exists c'. simpl. rewrite Hv. split; [done|]. split.
      * intros e' [->|He']%elem_of_cons Hsome; [|by auto].
        rewrite Hv in Hsome. by destruct Hsome.
      * intros k Hk. apply Hmiss. intros e' He'. apply Hk. by right.
Qed.

Lemma about_cons k s signals :
  about k (s :: signals) =
  if String.eqb (sig_marketId s) k then s :: about k signals else about k signals.
Proof. reflexivity. Qed.

Lemma omap_cons {A B} (f : A -> option B) x l :
  omap f (x :: l) =
  match f x with Some y => y :: omap f l | None => omap f l end.
Proof. reflexivity. Qed.

Lemma about_omap cooldowns now k es :
  NoDup (map fst es) ->
  about k (omap (verdict cooldowns now) es) =
  match own k es with
  | Some g => option_list (verdict cooldowns now (k, g))
  | None => []
  end.
Proof.
  induction es as [|[k0 g0] es IH]; intros Hnd; [done|].
  rewrite fmap_cons in Hnd. apply NoDup_cons in Hnd as [Hfresh Hnd].
  specialize (IH Hnd). cbn [own]. rewrite omap_cons.
  destruct (verdict cooldowns now (k0, g0)) as [s|] eqn:Hv.
  - rewrite about_cons, (verdict_id _ _ _ _ Hv). cbn [fst].
    rewrite (String.eqb_sym k k0).
    destruct (String.eqb_spec k0 k) as [->|Hne]; [|done].
    rewrite Hv, IH. cbn [option_list].
    destruct (own k es) eqn:Hown; [|done].
    apply own_elem, (list_elem_of_fmap_2 fst) in Hown. done.
  - rewrite IH.
    destruct (String.eqb_spec k k0) as [->|Hne]; [|done].
    rewrite Hv. cbn [option_list].
    destruct (own k0 es) eqn:Hown; [|done].
    apply own_elem, (list_elem_of_fmap_2 fst) in Hown. done.
Qed.

Lemma own_perm k (es es' : list (string * Group)) :
  NoDup (map fst es) -> es ≡ₚ es' -> own k es = own k es'.
Proof.
  intros Hnd Hp.
  assert (NoDup (map fst es')) as Hnd'.
  { by rewrite <- (Permutation_map fst Hp). }
  destruct (own k es) as [g|] eqn:H1.
  - symmetry. apply elem_own; [done|]. rewrite <- Hp. by apply own_elem.
  - destruct (own k es') as [g'|] eqn:H2; [|done].
    apply own_elem in H2. rewrite <- Hp in H2.
    apply (elem_own _ _ _ Hnd) in H2. congruence.
Qed.

(** What one call of [checkSignals] does, market by market: the window is
    untouched; a market with a partition gets the verdict computed from
    the cooldowns the call started with, and is stamped when a signal is
    pushed; nothing happens for the other markets. *)
Lemma checkSignals_spec d now signals d' :
  checkSignals d now = OK (signals, d') ->
  tradeWindow d' = tradeWindow d /\
  forall k,
    match partition (tradeWindow d) k with
    | Some g =>
        let v := verdict (alertCooldowns d) now (k, g) in
        about k signals = option_list v /\
        alertCooldowns d' !! k =
          match v with
          | Some _ => Some now
          | None => alertCooldowns d !! k
          end
    | None =>
        about k signals = [] /\
        alertCooldowns d' !! k = alertCooldowns d !! k
    end.
Proof.
  unfold checkSignals, partition.
  destruct (group_trades [] (tradeWindow d)) as [groups|e] eqn:Hg; [|done].
  cbn [JS.bind].
  destruct (groups_of_window _ _ Hg) as [Hnd _].
  pose proof (Object_entries_keys _ Hnd) as Hnd'.
  destruct (fold_analyze now (alertCooldowns d) (Object_entries groups)
              (alertCooldowns d) [] Hnd') as (c' & Hrun & Hhit & Hmiss); [done|].
  rewrite Hrun. intros [= <- <-]. split; [done|]. intros k. cbn [alertCooldowns].
  rewrite <- (own_perm k _ _ Hnd' (Object_entries_perm groups)).
  cbn [app]. rewrite about_omap by done.
  destruct (own k (Object_entries groups)) as [g|] eqn:Hown.
  - cbn zeta. split; [done|].
    destruct (verdict (alertCooldowns d) now (k, g)) as [s|] eqn:Hv.
    + apply (Hhit (k, g)); [by apply own_elem|]. by rewrite Hv.
    + apply Hmiss. intros [k' g'] He' Hk. cbn [fst] in Hk. subst k'.
      apply (elem_own _ _ _ Hnd') in He'. congruence.
  - split; [done|]. apply Hmiss. intros [k' g'] He' Hk. cbn [fst] in Hk. subst k'.
    apply (elem_own _ _ _ Hnd') in He'. congruence.
Qed.

(** [checkSignals] returns unless a key of the window is one that
    [Object.prototype] defines. *)
Lemma checkSignals_returns d now :
  (exists r, checkSignals d now = OK r) <->
  Forall (fun t => inherited (marketId t) = false) (tradeWindow d).
Proof.
  rewrite <- (group_trades_total (tradeWindow d) []).
  - unfold checkSignals. split.
    + intros [r Hr]. destruct (group_trades [] (tradeWindow d)); [eauto|done].
    + intros [groups ->]. cbn [JS.bind].
      destruct (fold_left _ _ _). eauto.
  - intros k [g Hg]. done.
Qed.

End LoopFacts.

(** ** The signal detector: classification, ratio filter, cooldown *)
Module DetectorFacts.
Import Detector Views ObjectFacts GroupFacts LoopFacts Samples.

(** The partition of a market holds its buys and its sells in window
    order, and exists once the market has a trade in the window. *)
Lemma partition_spec w k g :
  partition w k = Some g ->
  buys g = buys_in k w /\ sells g = sells_in k w /\
  exists t rest, market_trades k w = t :: rest /\ meta g = t.
Proof.
  unfold partition. destruct (group_trades [] w) as [groups|] eqn:Hg; [|done].
  intros Hown. destruct (group_trades_spec w [] groups Hg) as [_ H]; [constructor|].
  rewrite H in Hown. cbn [own grown] in Hown.
  destruct (market_trades k w) as [|t rest] eqn:Hm; [done|].
  injection Hown as <-. cbn [buys sells meta].
  split; [done|]. split; [done|]. by exists t, rest.
Qed.

Lemma verdict_eligible cooldowns now k g :
  cooling cooldowns now k = false ->
  ratio_filtered (volume (buys g)) (volume (sells g)) = false ->
  verdict cooldowns now (k, g) =
  signal_for k g <$> classify (unique_users (buys g)) (volume (buys g)).
Proof.
  intros Hc Hr. unfold verdict. cbn [fst snd]. rewrite Hc, Hr.
  by destruct (classify _ _).
Qed.

(** C1. For every partition that [checkSignals] evaluates and that passes
    the cooldown check and the ratio filter: with at least 3 unique buyers
    and a buy volume strictly above 10000 the signal is WOLF_PACK;
    otherwise, with a buy volume strictly above 15000, it is VOLUME_SURGE;
    otherwise no signal is emitted for the market.  At the boundary (no
    sells): 3 buyers with 10001 or 10000.01 give WOLF_PACK, 3 buyers with
    exactly 10000 give nothing, 1 buyer with 15001 gives VOLUME_SURGE. *)
Theorem checkSignals_classification d now signals d' k g :
  checkSignals d now = OK (signals, d') ->
  partition (tradeWindow d) k = Some g ->
  cooling (alertCooldowns d) now k = false ->
  ratio_filtered (volume (buys g)) (volume (sells g)) = false ->
  about k signals =
    (if (3 <=? unique_users (buys g))%nat && PrimFloat.ltb 10000 (volume (buys g))
     then [signal_for k g WOLF_PACK]
     else if PrimFloat.ltb 15000 (volume (buys g))
          then [signal_for k g VOLUME_SURGE]
          else [])
  /\ ratio_filtered 10001 0 = false
  /\ classify 3 10001 = Some WOLF_PACK
  /\ classify 3 10000.01 = Some WOLF_PACK
  /\ classify 3 10000 = None
  /\ ratio_filtered 15001 0 = false
  /\ classify 1 15001 = Some VOLUME_SURGE.
Proof.
  intros Hrun Hpart Hcool Hratio. split; [|by vm_compute].
  destruct (checkSignals_spec _ _ _ _ Hrun) as [_ Hk]. specialize (Hk k).
  rewrite Hpart in Hk. destruct Hk as [-> _].
  rewrite verdict_eligible by done. unfold classify.
  destruct ((3 <=? _)%nat && _); [done|].
  by destruct (PrimFloat.ltb 15000 _).
Qed.

Lemma checkSignals_classification_witness :
  checkSignals (detector_with pack) 5000 = OK ([pack_alert], stamped pack 5000) /\
  about "7" [pack_alert] = [pack_alert].
Proof.
  assert (checkSignals (detector_with pack) 5000
          = OK ([pack_alert], stamped pack 5000)) as Hrun
    by (vm_compute; reflexivity).
  split; [exact Hrun|].
  refine (proj1 (checkSignals_classification _ 5000 _ _ "7" pack_group Hrun _ _ _));
    vm_compute; reflexivity.
Defined.

(** The boundary cases of the classification, run through [checkSignals]
    itself. *)
Example pack_fires :
  checkSignals (detector_with pack) 5000 = OK ([pack_alert], stamped pack 5000).
Proof. vm_compute. reflexivity. Qed.

Example pack_at_threshold_is_silent :
  checkSignals (detector_with pack_at_threshold) 5000
  = OK ([], detector_with pack_at_threshold).
Proof. vm_compute. reflexivity. Qed.

Example whale_surges :
  checkSignals (detector_with whale) 5000
  = OK ([signal VOLUME_SURGE 15001 1 15001 "7"], stamped whale 5000).
Proof. vm_compute. reflexivity. Qed.

(** C4. For every partition [checkSignals] evaluates (past the cooldown
    check): [ratio] is [buyVol] when [sellVol == 0] and [buyVol / sellVol]
    otherwise; the partition yields no signal, whatever its volumes, when
    [sellVol > 0] and [ratio < 3.0], and is classified otherwise; an emitted
    signal carries that ratio.  With [sellVol = 100]: [buyVol = 299] is
    filtered, [buyVol = 300] (ratio exactly 3) is not. *)
Theorem checkSignals_ratio_filter d now signals d' k g :
  checkSignals d now = OK (signals, d') ->
  partition (tradeWindow d) k = Some g ->
  cooling (alertCooldowns d) now k = false ->
  let buyVol := volume (buys g) in
  let sellVol := volume (sells g) in
  let ratio := if PrimFloat.eqb sellVol 0 then buyVol else PrimFloat.div buyVol sellVol in
  about k signals =
    (if PrimFloat.ltb 0 sellVol && PrimFloat.ltb ratio 3
     then []
     else option_list (signal_for k g <$> classify (unique_users (buys g)) buyVol))
  /\ (forall s, s ∈ about k signals -> Detector.ratio s = ratio)
  /\ (PrimFloat.ltb 0 sellVol && PrimFloat.ltb ratio 3 = true ->
      alertCooldowns d' !! k = alertCooldowns d !! k)
  /\ ratio_of 299 100 = 2.99%float
  /\ ratio_filtered 299 100 = true
  /\ ratio_of 300 100 = 3%float
  /\ ratio_filtered 300 100 = false.
Proof.
  intros Hrun Hpart Hcool buyVol sellVol ratio.
  destruct (checkSignals_spec _ _ _ _ Hrun) as [_ Hk]. specialize (Hk k).
  rewrite Hpart in Hk. cbn zeta in Hk. destruct Hk as [Habout Hstamp].
  change (PrimFloat.ltb 0 sellVol && PrimFloat.ltb ratio 3)
    with (ratio_filtered buyVol sellVol).
  assert (verdict (alertCooldowns d) now (k, g) =
          if ratio_filtered buyVol sellVol then None
          else signal_for k g <$> classify (unique_users (buys g)) buyVol) as Hv.
  { unfold verdict. cbn [fst snd]. rewrite Hcool.
    fold buyVol sellVol. destruct (ratio_filtered buyVol sellVol); [done|].
    by destruct (classify _ _). }
  rewrite Hv in Habout, Hstamp.
  split; [|split; [|split; [|by vm_compute]]].
  - rewrite Habout. by destruct (ratio_filtered buyVol sellVol).
  - intros s. rewrite Habout.
    destruct (ratio_filtered buyVol sellVol); [by intros ?%elem_of_nil|].
    destruct (classify _ _); [|by intros ?%elem_of_nil].
    by intros ->%list_elem_of_singleton.
  - intros Hf. by rewrite Hf in Hstamp.
Qed.

Lemma checkSignals_ratio_filter_witness :
  checkSignals (detector_with dominant) 5000
    = OK ([signal VOLUME_SURGE 30000 1 3 "7"], stamped dominant 5000) /\
  about "7" [signal VOLUME_SURGE 30000 1 3 "7"] = [signal VOLUME_SURGE 30000 1 3 "7"].
Proof.
  assert (checkSignals (detector_with dominant) 5000
          = OK ([signal VOLUME_SURGE 30000 1 3 "7"], stamped dominant 5000)) as Hrun
    by (vm_compute; reflexivity).
  split; [exact Hrun|].
  refine (proj1 (checkSignals_ratio_filter _ 5000 _ _ "7" dominant_group Hrun _ _));
    vm_compute; reflexivity.
Defined.

(** The ratio filter at work on volumes that would otherwise classify. *)
Example outweighed_is_silent :
  checkSignals (detector_with outweighed) 5000 = OK ([], detector_with outweighed).
Proof. vm_compute. reflexivity. Qed.

Example dominant_surges :
  checkSignals (detector_with dominant) 5000
  = OK ([signal VOLUME_SURGE 30000 1 3 "7"], stamped dominant 5000).
Proof. vm_compute. reflexivity. Qed.

Lemma verdict_yield cooldowns now k g :
  verdict cooldowns now (k, g) =
  if cooling cooldowns now k then None else yield k g.
Proof.
  unfold verdict, yield. cbn [fst snd].
  destruct (cooling cooldowns now k); [done|].
  destruct (ratio_filtered _ _); [done|]. by destruct (classify _ _).
Qed.

Lemma about_app k l1 l2 : about k (l1 ++ l2) = about k l1 ++ about k l2.
Proof. apply List.filter_app. Qed.

(** A stamp that is still fresh at time [now]. *)
Lemma cooling_fresh cooldowns now k T :
  cooldowns !! k = Some T -> T <> 0 -> now - T < 300000 ->
  cooling cooldowns now k = true.
Proof.
  intros Hk HT Hnow. unfold cooling, truthy_int. rewrite Hk.
  apply andb_true_iff. split.
  - apply negb_true_iff. by apply Z.eqb_neq.
  - by apply Z.ltb_lt.
Qed.

(** While its cooldown is active a market gets no signal and keeps its
    stamp. *)
Lemma checkSignals_cooling d now signals d' k :
  checkSignals d now = OK (signals, d') ->
  cooling (alertCooldowns d) now k = true ->
  about k signals = [] /\ alertCooldowns d' !! k = alertCooldowns d !! k.
Proof.
  intros Hrun Hcool.
  destruct (checkSignals_spec _ _ _ _ Hrun) as [_ Hk]. specialize (Hk k).
  destruct (partition (tradeWindow d) k) as [g|]; [|done].
  cbn zeta in Hk. by rewrite verdict_yield, Hcool in Hk.
Qed.

Lemma step_cooling d c k T :
  alertCooldowns d !! k = Some T -> T <> 0 -> call_time c - T < 300000 ->
  about k (step d c).1 = [] /\ alertCooldowns (step d c).2 !! k = Some T.
Proof.
  intros Hk HT Hc. destruct c as [t now|now]; cbn [step call_time] in *.
  - done.
  - destruct (checkSignals d now) as [[signals d']|e] eqn:Hrun; [|done].
    destruct (checkSignals_cooling d now signals d' k Hrun) as [Ha Hs].
    + by eapply cooling_fresh.
    + cbn [fst snd]. by rewrite Hs.
Qed.

Lemma run_cooling calls : forall d k T,
  alertCooldowns d !! k = Some T -> T <> 0 ->
  Forall (fun c => call_time c - T < 300000) calls ->
  about k (run d calls).1 = [] /\ alertCooldowns (run d calls).2 !! k = Some T.
Proof.
  induction calls as [|c calls IH]; intros d k T Hk HT Hall; cbn [run].
  - done.
  - apply Forall_cons in Hall as [Hc Hall].
    destruct (step_cooling d c k T Hk HT Hc) as [Ha Hs].
    destruct (step d c) as [first d1]. cbn [fst snd] in *.
    destruct (IH d1 k T Hs HT Hall) as [Ha' Hs'].
    destruct (run d1 calls) as [later d2]. cbn [fst snd] in *.
    by rewrite about_app, Ha, Ha'.
Qed.

(** A market enters the cooldown map only by having a signal emitted. *)
Lemma step_absent d c k :
  alertCooldowns (step d c).2 !! k = None <->
  alertCooldowns d !! k = None /\ about k (step d c).1 = [].
Proof.
  destruct c as [t now|now]; cbn [step].
  - cbn. tauto.
  - destruct (checkSignals d now) as [[signals d']|e] eqn:Hrun; [|cbn; tauto].
    destruct (checkSignals_spec _ _ _ _ Hrun) as [_ Hk]. specialize (Hk k).
    cbn [fst snd].
    destruct (partition (tradeWindow d) k) as [g|].
    + cbn zeta in Hk. destruct Hk as [-> ->].
      destruct (verdict _ _ _); cbn; [|tauto].
      split; [done|]. by intros [_ ?].
    + destruct Hk as [-> ->]. tauto.
Qed.

Lemma run_absent calls : forall d k,
  alertCooldowns (run d calls).2 !! k = None <->
  alertCooldowns d !! k = None /\ about k (run d calls).1 = [].
Proof.
  induction calls as [|c calls IH]; intros d k; cbn [run].
  - cbn. tauto.
  - pose proof (step_absent d c k) as Hstep.
    destruct (step d c) as [first d1]. cbn [fst snd] in Hstep.
    specialize (IH d1 k).
    destruct (run d1 calls) as [later d2]. cbn [fst snd] in *.
    rewrite about_app, IH, Hstep.
    split.
    + intros [[? ->] ->]. done.
    + intros [? [-> ->]%app_eq_nil]. done.
Qed.

(** C3. Once [checkSignals] has emitted a signal for market [M] at time [T]
    (a clock reading, hence not zero), the cooldown map holds [T] for [M],
    and no later call emits a signal for [M] as long as every call is made
    less than 5 minutes after [T]; in particular not at [T + 299999].  At
    [T + 300001] the cooldown is over: a partition of [M] is classified
    again.  Before its first alert [M] is absent from the map. *)
Theorem checkSignals_cooldown d T signals d1 M :
  T <> 0 ->
  checkSignals d T = OK (signals, d1) ->
  about M signals <> [] ->
  alertCooldowns d1 !! M = Some T
  /\ (forall calls,
        Forall (fun c => call_time c - T < 300000) calls ->
        about M (run d1 calls).1 = [])
  /\ (forall d2 later d3,
        alertCooldowns d2 !! M = Some T ->
        checkSignals d2 (T + 299999) = OK (later, d3) ->
        about M later = [])
  /\ (forall d2 later d3 g,
        alertCooldowns d2 !! M = Some T ->
        checkSignals d2 (T + 300001) = OK (later, d3) ->
        partition (tradeWindow d2) M = Some g ->
        about M later = option_list (yield M g))
  /\ (forall calls,
        about M (run new_detector calls).1 = [] ->
        alertCooldowns (run new_detector calls).2 !! M = None).
Proof.
  intros HT Hrun Hsome.
  assert (alertCooldowns d1 !! M = Some T) as Hstamp.
  { destruct (checkSignals_spec _ _ _ _ Hrun) as [_ Hk]. specialize (Hk M).
    destruct (partition (tradeWindow d) M) as [g|]; [|by destruct Hk].
    cbn zeta in Hk. destruct Hk as [Ha ->].
    destruct (verdict _ _ _); [done|]. by rewrite Ha in Hsome. }
  split; [done|]. split; [|split; [|split]].
  - intros calls Hall. by apply (run_cooling calls d1 M T).
  - intros d2 later d3 Hk Hlater.
    apply (checkSignals_cooling d2 _ later d3 M Hlater).
    apply (cooling_fresh _ _ _ T); [done|done|lia].
  - intros d2 later d3 g Hk Hlater Hpart.
    destruct (checkSignals_spec _ _ _ _ Hlater) as [_ Hspec]. specialize (Hspec M).
    rewrite Hpart in Hspec. cbn zeta in Hspec. destruct Hspec as [-> _].
    rewrite verdict_yield. unfold cooling. rewrite Hk.
    replace (T + 300001 - T <? 300000) with false by (symmetry; apply Z.ltb_ge; lia).
    by rewrite andb_false_r.
  - intros calls Hnone. apply run_absent. split; [apply lookup_empty|done].
Qed.

Lemma checkSignals_cooldown_witness :
  alertCooldowns (stamped pack 5000) !! "7" = Some 5000 /\
  about "7" (run (stamped pack 5000) [CheckSignals 304999]).1 = [].
Proof.
  assert (checkSignals (detector_with pack) 5000
          = OK ([pack_alert], stamped pack 5000)) as Hrun
    by (vm_compute; reflexivity).
  destruct (checkSignals_cooldown (detector_with pack) 5000 [pack_alert]
              (stamped pack 5000) "7") as (Hstamp & Hquiet & _);
    [lia | exact Hrun | vm_compute; discriminate |].
  split; [exact Hstamp|].
  apply Hquiet. repeat constructor.
Defined.

(** The cooldown on the sample window: silent one millisecond before
    the five minutes are over, firing again one millisecond after. *)
Example cooldown_holds_at_299999 :
  checkSignals (stamped pack 5000) (5000 + 299999) = OK ([], stamped pack 5000).
Proof. vm_compute. reflexivity. Qed.

Example cooldown_over_at_300001 :
  checkSignals (stamped pack 5000) (5000 + 300001)
  = OK ([pack_alert], stamped pack 305001).
Proof. vm_compute. reflexivity. Qed.

(** A stamp of zero is falsy, so it starts no cooldown: the reason the
    clock reading is required to be non-zero where a cooldown is relied
    on. *)
Example zero_stamp_is_no_cooldown :
  checkSignals (stamped pack 0) 1 = OK ([pack_alert], stamped pack 1).
Proof. vm_compute. reflexivity. Qed.

Lemma cooling_ext c1 c2 now k :
  c1 !! k = c2 !! k -> cooling c1 now k = cooling c2 now k.
Proof. intros H. unfold cooling. by rewrite H. Qed.

Lemma about_all_nil signals : (forall k, about k signals = []) -> signals = [].
Proof.
  intros H. destruct signals as [|s signals]; [done|].
  specialize (H (sig_marketId s)). rewrite about_cons, String.eqb_refl in H. done.
Qed.

(** C8. When [checkSignals] is called again with no [addTrade] in between
    and no cooldown has expired in the meantime, the second call returns no
    signal and changes nothing: the markets the first call classified are
    now cooling down, and the others fail the same checks on the same
    window. *)
Theorem checkSignals_idempotent d now1 now2 signals d1 :
  now1 <> 0 ->
  checkSignals d now1 = OK (signals, d1) ->
  (forall k, cooling (alertCooldowns d1) now1 k = true ->
             cooling (alertCooldowns d1) now2 k = true) ->
  checkSignals d1 now2 = OK ([], d1).
Proof.
  intros Hnow Hrun Hkeep.
  destruct (checkSignals_spec _ _ _ _ Hrun) as [Hwin Hfirst].
  assert (exists r, checkSignals d1 now2 = OK r) as [[again d2] Hagain].
  { apply checkSignals_returns. rewrite Hwin.
    apply (checkSignals_returns d now1). eauto. }
  destruct (checkSignals_spec _ _ _ _ Hagain) as [Hwin2 Hsecond].
  assert (forall k, about k again = [] /\
                    alertCooldowns d2 !! k = alertCooldowns d1 !! k) as Hquiet.
  { intros k. specialize (Hfirst k). specialize (Hsecond k).
    rewrite Hwin in Hsecond.
    destruct (partition (tradeWindow d) k) as [g|]; [|done].
    cbn zeta in Hfirst, Hsecond. rewrite verdict_yield in Hfirst, Hsecond.
    destruct Hfirst as [_ Hstamp].
    assert (cooling (alertCooldowns d1) now2 k = true \/ yield k g = None) as Hwhy.
    { destruct (cooling (alertCooldowns d) now1 k) eqn:Hc.
      - left. apply Hkeep. by rewrite (cooling_ext _ (alertCooldowns d)).
      - destruct (yield k g) as [s|]; [|by right].
        left. apply Hkeep. apply (cooling_fresh _ _ _ now1); [done|done|lia]. }
    destruct Hwhy as [Hc| Hy].
    - by rewrite Hc in Hsecond.
    - rewrite Hy in Hsecond. by destruct (cooling (alertCooldowns d1) now2 k). }
  assert (again = []) as -> by (apply about_all_nil; intros k; apply Hquiet).
  assert (d2 = d1) as ->; [|done].
  destruct d1 as [w1 c1], d2 as [w2 c2]. cbn in *. f_equal; [done|].
  apply map_eq. intros k. apply Hquiet.
Qed.

Lemma checkSignals_idempotent_witness :
  checkSignals (stamped pack 5000) 20000 = OK ([], stamped pack 5000).
Proof.
  apply (checkSignals_idempotent (detector_with pack) 5000 20000 [pack_alert]).
  - lia.
  - vm_compute. reflexivity.
  - intros k. unfold cooling, stamped. cbn [alertCooldowns].
    destruct (decide (k = "7")) as [->|Hne].
    + rewrite lookup_singleton_eq. reflexivity.
    + rewrite lookup_singleton_ne by done. discriminate.
Defined.

End DetectorFacts.

(** ** The sliding window ([addTrade]) *)
Module WindowFacts.
Import Detector Views ObjectFacts GroupFacts LoopFacts DetectorFacts Samples.

(** A trade passes the pruning filter when its timestamp is a number and
    its age is strictly below 60000 ms. *)
Lemma newer_than_age now t :
  newer_than (now - 60000) t = true <->
  exists ts, timestamp t = Some ts /\ now - ts < 60000.
Proof.
  unfold newer_than. destruct (timestamp t) as [ts|].
  - rewrite Z.ltb_lt. split.
    + intros H. exists ts. split; [done|lia].
    + intros (ts' & [= <-] & H). lia.
  - split; [done|]. by intros (ts & ? & _).
Qed.

(** [addTrade] leaves the cooldowns alone and keeps, in order, exactly the
    trades of the extended window whose age is below 60000 ms. *)
Lemma addTrade_retains d trade now x :
  x ∈ tradeWindow (addTrade d trade now) <->
  (x ∈ tradeWindow d \/ x = trade) /\
  exists ts, timestamp x = Some ts /\ now - ts < 60000.
Proof.
  unfold addTrade. cbn [tradeWindow].
  rewrite list_elem_of_In, filter_In, <- list_elem_of_In, elem_of_app.
  rewrite list_elem_of_singleton. by rewrite newer_than_age.
Qed.

(** After every [addTrade], whatever the detector was before, every
    retained trade is younger than 60000 ms (so also [now - ts <= 60000]). *)
Lemma addTrade_window_fresh d trade now :
  Forall (fun x => exists ts, timestamp x = Some ts /\ now - ts < 60000
                              /\ now - ts <= 60000)
         (tradeWindow (addTrade d trade now)).
Proof.
  apply Forall_forall. intros x [_ (ts & Hts & Hage)]%addTrade_retains.
  exists ts. repeat split; [done|done|lia].
Qed.

(** C2, at its boundary. A trade added when its age is exactly 60000 ms is
    pruned by the very call that adds it; one millisecond younger, it is
    kept. *)
Lemma addTrade_drops_age_60000 :
  tradeWindow (addTrade new_detector at_horizon 100000) = [] /\
  tradeWindow (addTrade new_detector inside_horizon 100000) = [inside_horizon].
Proof. split; reflexivity. Qed.

Lemma addTrade_drops_at_horizon d trade now x ts :
  timestamp x = Some ts -> now - ts = 60000 ->
  x ∉ tradeWindow (addTrade d trade now).
Proof.
  intros Hts Hage [_ (ts' & Hts' & Hlt)]%addTrade_retains.
  rewrite Hts in Hts'. injection Hts' as <-. lia.
Qed.

End WindowFacts.

(** ** The global scanner feeding the window *)
Module IngestFacts.
Import Detector Views ObjectFacts GroupFacts LoopFacts DetectorFacts WindowFacts.
Import Ingest Samples.

Lemma volume_snoc l t :
  volume (l ++ [t]) = PrimFloat.add (volume l) (amountUSD t).
Proof. unfold volume. by rewrite fold_left_app. Qed.

Lemma buys_in_app k l1 l2 : buys_in k (l1 ++ l2) = buys_in k l1 ++ buys_in k l2.
Proof. unfold buys_in, market_trades. by rewrite !List.filter_app. Qed.

Lemma buys_in_elem k t w :
  t ∈ buys_in k w <-> t ∈ w /\ marketId t = k /\ side t = Buy.
Proof.
  unfold buys_in, market_trades, is_Buy.
  rewrite list_elem_of_In, !filter_In, <- list_elem_of_In.
  destruct (String.eqb_spec (marketId t) k), (side t); intuition congruence.
Qed.

(** A [filter] keeps, in order and with their multiplicity, the elements
    that pass it. *)
Lemma sublist_filter {A} (f : A -> bool) (l w : list A) :
  l `sublist_of` w -> Forall (fun x => f x = true) l ->
  l `sublist_of` List.filter f w.
Proof.
  induction 1 as [|x l w Hsub IH|x l w Hsub IH]; intros Hall; simpl.
  - constructor.
  - apply Forall_cons in Hall as [-> Hall]. constructor. auto.
  - destruct (f x); [constructor|]; auto.
Qed.

Lemma addTrade_window d t now :
  tradeWindow (addTrade d t now) =
  List.filter (newer_than (now - 60000)) (tradeWindow d)
  ++ (if newer_than (now - 60000) t then [t] else []).
Proof. unfold addTrade. cbn [tradeWindow]. by rewrite List.filter_app. Qed.

(** Adding a trade keeps every copy of the trades that are still young, and
    appends the new one after them when it is young itself. *)
Lemma addTrade_sublist d t now l :
  l `sublist_of` tradeWindow d ->
  Forall (fun x => newer_than (now - 60000) x = true) l ->
  newer_than (now - 60000) t = true ->
  (l ++ [t]) `sublist_of` tradeWindow (addTrade d t now).
Proof.
  intros Hsub Hall Ht. rewrite addTrade_window, Ht.
  apply sublist_app; [by apply sublist_filter|done].
Qed.

Lemma addTrade_keeps d t now l :
  l `sublist_of` tradeWindow d ->
  Forall (fun x => newer_than (now - 60000) x = true) l ->
  l `sublist_of` tradeWindow (addTrade d t now).
Proof.
  intros Hsub Hall. rewrite addTrade_window.
  apply sublist_inserts_r. by apply sublist_filter.
Qed.

(** Feeding under one clock: what stays young at every reading of it
    stays in the window. *)
Section Pass.
Context (clock : nat -> Z).

Lemma feed_keeps m trades : forall st l,
  l `sublist_of` tradeWindow st.1 -> Forall (young clock) l ->
  l `sublist_of` tradeWindow (feed clock m trades st).1.
Proof.
  induction trades as [|[t|] trades IH]; intros [d tick] l Hsub Hall; cbn [feed].
  - done.
  - destruct (is_BUY t); [|by apply IH].
    apply IH; [|done]. cbn [fst]. apply addTrade_keeps; [done|].
    eapply Forall_impl; [exact Hall|]. intros x Hx. apply Hx.
  - done.
Qed.

(** A buy record that the [forEach] reaches is appended to the window,
    behind every copy already there. *)
Lemma feed_adds m pre r post : forall st l,
  Forall is_Some pre -> is_BUY r = true -> young clock (to_trade m r) ->
  l `sublist_of` tradeWindow st.1 -> Forall (young clock) l ->
  (l ++ [to_trade m r]) `sublist_of`
    tradeWindow (feed clock m (pre ++ Some r :: post) st).1.
Proof.
  induction pre as [|e pre IH]; intros [d tick] l Hpre Hbuy Hyoung Hsub Hall.
  - cbn [app feed]. rewrite Hbuy. apply feed_keeps.
    + cbn [fst]. apply addTrade_sublist; [done| |apply Hyoung].
      eapply Forall_impl; [exact Hall|]. intros x Hx. apply Hx.
    + apply Forall_app. split; [done|]. by constructor.
  - apply Forall_cons in Hpre as [[t ->] Hpre]. cbn [app feed].
    destruct (is_BUY t); [|by apply IH].
    apply IH; try done. cbn [fst]. apply addTrade_keeps; [done|].
    eapply Forall_impl; [exact Hall|]. intros x Hx. apply Hx.
Qed.

Lemma pass_keeps arrivals : forall st l,
  l `sublist_of` tradeWindow st.1 -> Forall (young clock) l ->
  l `sublist_of` tradeWindow (fold_left (scan_market clock) arrivals st).1.
Proof.
  induction arrivals as [|[m [trades|e]] arrivals IH]; intros st l Hsub Hall;
    cbn [fold_left]; [done| |by apply IH].
  apply IH; [|done]. unfold scan_market. cbn [fst snd]. by apply feed_keeps.
Qed.

Lemma pass_adds before m pre r post after st l :
  Forall is_Some pre -> is_BUY r = true -> young clock (to_trade m r) ->
  l `sublist_of` tradeWindow st.1 -> Forall (young clock) l ->
  (l ++ [to_trade m r]) `sublist_of`
    tradeWindow (fold_left (scan_market clock)
                   (before ++ (m, OK (pre ++ Some r :: post)) :: after) st).1.
Proof.
  intros Hpre Hbuy Hyoung Hsub Hall. rewrite fold_left_app. cbn [fold_left].
  apply pass_keeps.
  - unfold scan_market at 1. cbn [fst snd]. apply feed_adds; try done.
    by apply pass_keeps.
  - apply Forall_app. split; [done|]. by constructor.
Qed.

End Pass.

(** A pass leaves in the window what feeding left there: [checkSignals]
    does not touch it. *)
Lemma scanGlobalMarket_window `{NumberFormat} clock arrivals users d :
  tradeWindow (scanGlobalMarket clock (OK arrivals) users d).2 =
  tradeWindow (fold_left (scan_market clock) arrivals (d, 0%nat)).1.
Proof.
  unfold scanGlobalMarket.
  destruct (fold_left (scan_market clock) arrivals (d, 0%nat)) as [fed tick].
  cbn [fst]. destruct (checkSignals fed (clock tick)) as [[signals after]|e] eqn:Hrun.
  - destruct (checkSignals_spec _ _ _ _ Hrun) as [<- _].
    destruct signals; [done|]. by destruct users.
  - done.
Qed.

(** C10. [addTrade] does not deduplicate.  When a trade [t] of the window,
    still within the horizon, is added again, the window holds both copies:
    the buys of its market end with the new copy behind the old one, and the
    buy volume adds [amountUSD t] once for each.  So a record that the
    scanner fetches in two consecutive passes, young at every clock reading
    of both, is in the window twice and is counted twice. *)
Theorem addTrade_no_dedup `{NumberFormat} d t now :
  t ∈ tradeWindow d ->
  newer_than (now - 60000) t = true ->
  side t = Buy ->
  (exists l1 l2,
      buys_in (marketId t) (tradeWindow (addTrade d t now)) = l1 ++ t :: l2 ++ [t] /\
      volume (l1 ++ t :: l2 ++ [t]) =
        PrimFloat.add
          (fold_left (fun sum x => PrimFloat.add sum (amountUSD x)) l2
                     (PrimFloat.add (volume l1) (amountUSD t)))
          (amountUSD t) /\
      forall g, partition (tradeWindow (addTrade d t now)) (marketId t) = Some g ->
                buys g = l1 ++ t :: l2 ++ [t])
  /\ (forall clock1 clock2 before1 after1 before2 after2 pre1 post1 pre2 post2
             users1 users2 d0 m r,
        Forall is_Some pre1 -> Forall is_Some pre2 ->
        is_BUY r = true ->
        young clock1 (to_trade m r) -> young clock2 (to_trade m r) ->
        let hot1 := OK (before1 ++ (m, OK (pre1 ++ Some r :: post1)) :: after1) in
        let hot2 := OK (before2 ++ (m, OK (pre2 ++ Some r :: post2)) :: after2) in
        let d1 := (scanGlobalMarket clock1 hot1 users1 d0).2 in
        let d2 := (scanGlobalMarket clock2 hot2 users2 d1).2 in
        [to_trade m r; to_trade m r] `sublist_of` buys_in (Ingest.id m) (tradeWindow d2)).
Proof.
  intros Hin Hfresh Hbuy. split.
  - assert (t ∈ buys_in (marketId t)
                  (List.filter (newer_than (now - 60000)) (tradeWindow d))) as Hold.
    { apply buys_in_elem. split; [|done].
      apply list_elem_of_In, filter_In. by rewrite <- list_elem_of_In. }
    apply list_elem_of_split in Hold as (l1 & l2 & Hold).
    assert (buys_in (marketId t) (tradeWindow (addTrade d t now))
            = l1 ++ t :: l2 ++ [t]) as Hboth.
    { rewrite addTrade_window, Hfresh, buys_in_app, Hold, <- app_assoc.
      cbn [app]. do 2 f_equal. rewrite buys_in_cons, String.eqb_refl.
      unfold is_Buy. by rewrite Hbuy. }
    exists l1, l2. split; [done|]. split.
    + unfold volume. rewrite fold_left_app. cbn [fold_left].
      by rewrite fold_left_app.
    + intros g Hg. apply partition_spec in Hg as [-> _]. done.
  - intros clock1 clock2 before1 after1 before2 after2 pre1 post1 pre2 post2
           users1 users2 d0 m r Hpre1 Hpre2 Hside Hy1 Hy2 hot1 hot2 d1 d2.
    apply sublist_filter.
    + apply sublist_filter.
      * unfold d2, hot2. rewrite scanGlobalMarket_window.
        apply (pass_adds clock2 before2 m pre2 r post2 after2 (d1, 0%nat)
                 [to_trade m r]); try done.
        -- cbn [fst]. unfold d1, hot1. rewrite scanGlobalMarket_window.
           by apply (pass_adds clock1 before1 m pre1 r post1 after1 (d0, 0%nat) []);
             try done; apply sublist_nil_l.
        -- by constructor.
      * repeat constructor; cbn; apply String.eqb_refl.
    + repeat constructor.
Qed.

Lemma addTrade_no_dedup_witness :
  exists l1 l2,
    buys_in "7" (tradeWindow (addTrade (detector_with whale)
                                (trade 1000 15001 "ann" "7" Buy) 5000))
    = l1 ++ trade 1000 15001 "ann" "7" Buy :: l2 ++ [trade 1000 15001 "ann" "7" Buy].
Proof.
  destruct (addTrade_no_dedup (detector_with whale)
              (trade 1000 15001 "ann" "7" Buy) 5000) as [(l1 & l2 & Hboth & _) _].
  - apply list_elem_of_here.
  - reflexivity.
  - reflexivity.
  - exists l1, l2. exact Hboth.
Defined.

(** C10 as it is stated fails for a retained trade that has left the
    horizon: the window keeps it until the next call, and that call prunes
    it together with the copy it is given, so that neither is counted. *)
Lemma addTrade_prunes_stale_copy :
  tradeWindow (addTrade new_detector (trade 1000 15001 "ann" "7" Buy) 2000)
  = [trade 1000 15001 "ann" "7" Buy]
  /\ tradeWindow (addTrade (addTrade new_detector (trade 1000 15001 "ann" "7" Buy) 2000)
                    (trade 1000 15001 "ann" "7" Buy) 100000)
     = []
  /\ buys_in "7"
       (tradeWindow (addTrade (addTrade new_detector (trade 1000 15001 "ann" "7" Buy) 2000)
                       (trade 1000 15001 "ann" "7" Buy) 100000))
     = [].
Proof. repeat split. Qed.

(** One upstream buy of 8000 USD, fetched by two passes 15 seconds apart:
    the first pass sees 8000 and stays silent, the second sees 16000 and
    broadcasts a VOLUME_SURGE from a single trade. *)
Example refetched_buy_surges :
  let hot := OK [(market7, OK [Some upstream_buy])] in
  let first := scanGlobalMarket (fun _ => 100000) hot (OK ["chat"]) new_detector in
  let second := scanGlobalMarket (fun _ => 115000) hot (OK ["chat"]) first.2 in
  first.1 = [] /\
  tradeWindow first.2 = [to_trade market7 upstream_buy] /\
  second.1 = broadcast [signal VOLUME_SURGE 16000 1 16000 "7"] ["chat"] /\
  tradeWindow second.2 = [to_trade market7 upstream_buy; to_trade market7 upstream_buy].
Proof. vm_compute. repeat split. Qed.

(** The wallet tracker defaults a missing [size] or [price] to zero. *)
Lemma or_zero_missing : or_zero None = 0%float.
Proof. reflexivity. Qed.

(** C5, on the scanner's path. The global scanner has no such default: a
    record without [size] enters the window with a NaN amount, and the buy
    volume of its market is NaN. *)
Lemma missing_size_gives_NaN_volume :
  let fed := (scanGlobalMarket (fun _ => 100000)
                (OK [(market7, OK [Some sizeless_buy])]) (OK []) new_detector).2 in
  exists g, partition (tradeWindow fed) "7" = Some g /\
            is_nan (volume (buys g)) = true.
Proof. eexists. split; vm_compute; reflexivity. Qed.

(** With a NaN volume no comparison succeeds: a pack that would fire is
    silenced by one such record of the same market. *)
Example NaN_amount_silences_pack :
  let d := detector_with young_pack in
  let clock := fun _ : nat => 100000 in
  (scanGlobalMarket clock (OK [(market7, OK [])]) (OK ["chat"]) d).1
    = broadcast [signal WOLF_PACK 10001 3 10001 "7"] ["chat"] /\
  (scanGlobalMarket clock (OK [(market7, OK [Some sizeless_buy])]) (OK ["chat"]) d).1
    = [].
Proof. vm_compute. split; reflexivity. Qed.

End IngestFacts.

(** ** The watchlist tracker *)
Module TrackerFacts.
Import Tracker Samples.

Lemma changed_iff w current :
  changed w current = true <->
  exists prior, lastHash w = Some prior /\ truthy_str prior = true /\
                current <> Some prior.
Proof.
  unfold changed. destruct (lastHash w) as [prior|].
  - rewrite andb_true_iff, negb_true_iff. split.
    + intros [Ht Hne]. exists prior. split; [done|]. split; [done|].
      intros ->. by rewrite String.eqb_refl in Hne.
    + intros (p & [= <-] & Ht & Hne). split; [done|].
      destruct current as [c|]; [|done].
      destruct (String.eqb_spec prior c); congruence.
  - split; [done|]. by intros (p & ? & _).
Qed.

(** C6. For a watched wallet whose most recent upstream record is
    available (and a store that accepts the write): the fingerprint is the
    record's id, or its transaction hash when the id is absent; with no
    fingerprint stored, the current one is stored and no message is sent;
    with the stored one equal to the current one, nothing is sent and
    nothing is stored; with a different one stored and a record of type
    TRADE, exactly one alert is sent and the new fingerprint is stored. *)
Theorem scan_wallet_fingerprint `{NumberFormat} chatId w world trade rest :
  fetched world = OK (Records (Some trade :: rest)) ->
  updateOne world = OK tt ->
  let current := currentHash trade in
  let effects := (scan_wallet chatId w world).1 in
  (act_id trade = None -> current = transactionHash trade)
  /\ (truthy (act_id trade) = true -> current = act_id trade)
  /\ (truthy (lastHash w) = false ->
      effects = [UpdateLastHash chatId (address w) current])
  /\ (truthy (lastHash w) = true -> lastHash w = current -> effects = [])
  /\ (truthy (lastHash w) = true -> lastHash w <> current ->
      act_type trade = Some "TRADE" ->
      effects = [SendMessage chatId (alert_text w trade);
                 UpdateLastHash chatId (address w) current]).
Proof.
  intros Hfetch Hstore current effects.
  assert (effects =
          if changed w current
          then (if is_trade trade then [SendMessage chatId (alert_text w trade)] else [])
               ++ [UpdateLastHash chatId (address w) current]
          else if negb (truthy (lastHash w))
               then [UpdateLastHash chatId (address w) current]
               else []) as Heff.
  { unfold effects, scan_wallet, try_wallet, store. rewrite Hfetch, Hstore.
    fold current. destruct (changed w current); [done|].
    by destruct (negb (truthy (lastHash w))). }
  split; [|split; [|split; [|split]]].
  - unfold current, currentHash, or_else. by intros ->.
  - unfold current, currentHash, or_else. by intros ->.
  - intros Hnone. rewrite Heff.
    destruct (changed w current) eqn:Hch.
    + apply changed_iff in Hch as (prior & Hp & Ht & _).
      rewrite Hp in Hnone. cbn in Hnone. congruence.
    + by rewrite Hnone.
  - intros Hsome Hsame. rewrite Heff.
    destruct (changed w current) eqn:Hch.
    + apply changed_iff in Hch as (prior & Hp & _ & Hne). congruence.
    + by rewrite Hsome.
  - intros Hsome Hdiff Htrade. rewrite Heff.
    assert (changed w current = true) as ->.
    { apply changed_iff. unfold truthy in Hsome.
      destruct (lastHash w) as [prior|]; [|done]. exists prior. auto. }
    unfold is_trade. by rewrite Htrade.
Qed.

Lemma scan_wallet_fingerprint_witness :
  (scan_wallet "chat" (whale_wallet (Some "tx1"))
     (answering (activity (Some "tx2") None "TRADE"))).1
  = [SendMessage "chat" (alert_text (whale_wallet (Some "tx1"))
                           (activity (Some "tx2") None "TRADE"));
     UpdateLastHash "chat" "0xabc" (Some "tx2")].
Proof.
  refine (proj2 (proj2 (proj2 (proj2
    (scan_wallet_fingerprint "chat" (whale_wallet (Some "tx1"))
       (answering (activity (Some "tx2") None "TRADE"))
       (activity (Some "tx2") None "TRADE") [] eq_refl eq_refl)))) _ _ _);
    [reflexivity | discriminate | reflexivity].
Defined.

(** The tracker through whole passes and the stored document: first
    sync, an unchanged record, then a new trade. *)
Example first_sync_then_quiet_then_alert :
  let tx1 := activity (Some "tx1") None "TRADE" in
  let tx2 := activity None (Some "0xfeed") "TRADE" in
  let stored0 := [whale_wallet None] in
  let pass stored a :=
    scanSpecificWallets (OK (Some stored)) (fun _ => answering a) "chat" false in
  let stored1 := [whale_wallet (Some "tx1")] in
  pass stored0 tx1 = OK [UpdateLastHash "chat" "0xabc" (Some "tx1")] /\
  fold_left apply_effect [UpdateLastHash "chat" "0xabc" (Some "tx1")] stored0 = stored1 /\
  pass stored1 tx1 = OK [] /\
  pass stored1 tx2 = OK [SendMessage "chat" (alert_text (whale_wallet (Some "tx1")) tx2);
                         UpdateLastHash "chat" "0xabc" (Some "0xfeed")].
Proof. repeat split. Qed.

Lemma scan_loop_effects `{NumberFormat} chatId visits : forall found,
  scan_loop chatId visits found =
  (flat_map (fun v => (scan_wallet chatId v.1 v.2).1) visits,
   found || existsb (fun v => (scan_wallet chatId v.1 v.2).2) visits).
Proof.
  induction visits as [|[w world] visits IH]; intros found; cbn [scan_loop].
  - by rewrite orb_false_r.
  - cbn [flat_map existsb fst snd].
    destruct (scan_wallet chatId w world) as [effects here]. rewrite IH.
    cbn [fst snd]. by rewrite orb_assoc.
Qed.

(** C7. Whatever happens while one wallet is scanned (a failed fetch, a
    response without body or that is no array, a null record, a refused
    write), the pass completes: its effects are those of every wallet of
    the list, in order, each scanned as if alone; a wallet whose scan
    raises contributes what it had done before, followed by one logged
    error. *)
Theorem scan_pass_isolates_failures `{NumberFormat} wallets worlds chatId isManual :
  wallets <> [] ->
  let visits := imap (fun i w => (w, worlds i)) wallets in
  let found := existsb (fun v => (scan_wallet chatId v.1 v.2).2) visits in
  scanSpecificWallets (OK (Some wallets)) worlds chatId isManual
  = OK (flat_map (fun v => (scan_wallet chatId v.1 v.2).1) visits
        ++ (if isManual && negb found
            then [SendMessage chatId "✅ No new trades found since last check."]
            else []))
  /\ (forall i w, wallets !! i = Some w -> (w, worlds i) ∈ visits)
  /\ (forall w world e,
        (try_wallet chatId w world).1.2 = Some e ->
        (scan_wallet chatId w world).1 =
        (try_wallet chatId w world).1.1
        ++ [ConsoleError ("Error scanning wallet " +:+ name w)])
  /\ (forall w world,
        (try_wallet chatId w world).1.2 = None ->
        (scan_wallet chatId w world).1 = (try_wallet chatId w world).1.1).
Proof.
  intros Hne visits found. split; [|split; [|split]].
  - unfold scanSpecificWallets. cbn [JS.bind].
    destruct wallets as [|w0 wallets]; [done|].
    fold visits. by rewrite scan_loop_effects.
  - intros i w Hi. unfold visits. apply list_elem_of_lookup. exists i.
    by rewrite list_lookup_imap, Hi.
  - intros w world e He. unfold scan_wallet.
    destruct (try_wallet chatId w world) as [[effects raised] here].
    cbn [fst snd] in *. by rewrite He.
  - intros w world He. unfold scan_wallet.
    destruct (try_wallet chatId w world) as [[effects raised] here].
    cbn [fst snd] in *. by rewrite He.
Qed.

Lemma scan_pass_isolates_failures_witness :
  scanSpecificWallets
    (OK (Some [whale_wallet (Some "tx1"); whale_wallet None]))
    (fun i => match i with O => unreachable | _ => answering (activity (Some "tx2") None "TRADE") end)
    "chat" false
  = OK [ConsoleError "Error scanning wallet Moby";
        UpdateLastHash "chat" "0xabc" (Some "tx2")].
Proof.
  refine (proj1 (scan_pass_isolates_failures
                   [whale_wallet (Some "tx1"); whale_wallet None] _ "chat" false _)).
  discriminate.
Defined.

End TrackerFacts.

(** ** Numerals and their renderings *)
Module NumeralFacts.
Import Numerals Reference.

Lemma app_assoc_s (a b c : string) : (a +:+ b) +:+ c = a +:+ (b +:+ c).
Proof.
  induction a as [|x a IH]; [done|].
  change (String x ((a +:+ b) +:+ c) = String x (a +:+ (b +:+ c))).
  by rewrite IH.
Qed.

Lemma app_nil_s (a : string) : a +:+ "" = a.
Proof.
  induction a as [|x a IH]; [done|].
  change (String x (a +:+ "") = String x a). by rewrite IH.
Qed.

Lemma app_cons_s (x : ascii) (a b : string) : String x a +:+ b = String x (a +:+ b).
Proof. done. Qed.

Lemma length_app_s (a b : string) :
  String.length (a +:+ b) = (String.length a + String.length b)%nat.
Proof.
  induction a as [|x a IH]; [done|]. rewrite app_cons_s. cbn [String.length].
  by rewrite IH.
Qed.

Lemma numeral_from_app (a b : string) : forall acc,
  numeral_from acc (a +:+ b) = numeral_from acc a ≫= fun v => numeral_from v b.
Proof.
  induction a as [|x a IH]; intros acc; [done|].
  rewrite app_cons_s. cbn [numeral_from]. destruct (digit_value x); [apply IH|done].
Qed.

Lemma digit_value_char (d : N) : (d < 10)%N -> digit_value (pretty_N_char d) = Some d.
Proof.
  intros Hd.
  assert (d = 0 \/ d = 1 \/ d = 2 \/ d = 3 \/ d = 4 \/ d = 5 \/ d = 6 \/ d = 7
          \/ d = 8 \/ d = 9)%N as Hcases by lia.
  repeat destruct Hcases as [->|Hcases]; try reflexivity. by subst.
Qed.

Lemma pretty_go_app (x : N) : forall s, pretty_N_go x s = pretty_N_go x "" +:+ s.
Proof.
  induction (N.lt_wf_0 x) as [x _ IH]; intros s.
  destruct (N.eq_dec x 0%N) as [->|Hx].
  - by rewrite !pretty_N_go_0.
  - rewrite !(pretty_N_go_step x) by lia.
    assert (x `div` 10 < x)%N as Hlt by (apply N.div_lt; lia).
    rewrite (IH _ Hlt (String (pretty_N_char (x `mod` 10)) s)).
    rewrite (IH _ Hlt (String (pretty_N_char (x `mod` 10)) "")).
    by rewrite app_assoc_s.
Qed.

Lemma numeral_from_go (x : N) : numeral_from 0 (pretty_N_go x "") = Some x.
Proof.
  induction (N.lt_wf_0 x) as [x _ IH].
  destruct (N.eq_dec x 0%N) as [->|Hx]; [done|].
  rewrite pretty_N_go_step, pretty_go_app, numeral_from_app by lia.
  rewrite IH by (apply N.div_lt; lia). cbn [mbind option_bind numeral_from].
  rewrite digit_value_char by (apply N.mod_lt; lia).
  f_equal. rewrite (N.div_mod x 10) at 3 by lia. lia.
Qed.

Lemma pretty_go_nonempty (x : N) : x <> 0%N -> pretty_N_go x "" <> "".
Proof.
  intros Hx. rewrite pretty_N_go_step, pretty_go_app by lia.
  by destruct (pretty_N_go (x `div` 10) "").
Qed.

(** The decimal numeral of [x] reads back as [x]. *)
Lemma numeral_pretty (x : N) : numeral (pretty x) = Some x.
Proof.
  unfold pretty, pretty_N. destruct (decide (x = 0%N)) as [->|Hx]; [done|].
  pose proof (pretty_go_nonempty x Hx) as Hne. pose proof (numeral_from_go x) as Hval.
  by destruct (pretty_N_go x "").
Qed.

Lemma numeral_pretty_nat (n : nat) : numeral (show_nat n) = Some (N.of_nat n).
Proof. apply numeral_pretty. Qed.

Lemma numeral_nonempty s n : numeral s = Some n -> s <> "".
Proof. by destruct s. Qed.

Lemma numeral_from_numeral s : s <> "" -> numeral s = numeral_from 0 s.
Proof. by destruct s. Qed.

Lemma numeral_from_digits s : forall acc n, numeral_from acc s = Some n -> digits s = true.
Proof.
  induction s as [|c s IH]; intros acc n; [done|]. cbn [numeral_from digits].
  unfold is_digit. destruct (digit_value c); [|done]. apply IH.
Qed.

Lemma numeral_digits s n : numeral s = Some n -> digits s = true.
Proof. destruct s; [done|]. apply numeral_from_digits. Qed.

Lemma digit_not_sep c sep :
  is_digit c = true -> is_digit sep = false -> Ascii.eqb c sep = false.
Proof.
  intros Hc Hsep. destruct (Ascii.eqb_spec c sep) as [->|]; [congruence|done].
Qed.

Lemma without_digits sep s : is_digit sep = false -> digits s = true -> without sep s = s.
Proof.
  intros Hsep. induction s as [|c s IH]; [done|]. cbn [digits without].
  intros [Hc Hs]%andb_true_iff. rewrite (digit_not_sep c sep) by done. by rewrite IH.
Qed.

Lemma without_app sep a b : without sep (a +:+ b) = without sep a +:+ without sep b.
Proof.
  induction a as [|c a IH]; [done|]. rewrite app_cons_s. cbn [without].
  destruct (Ascii.eqb c sep); [done|]. by rewrite app_cons_s, IH.
Qed.

Lemma mod3_add (q j : nat) : (j < 3)%nat -> ((3 * q + j) mod 3 = j)%nat.
Proof.
  intros Hj. rewrite Nat.add_comm, Nat.mul_comm, Nat.Div0.mod_add.
  by apply Nat.mod_small.
Qed.

Lemma leading_three_behind_comma v :
  leading 3 v = true -> groups_of_three (String "," v) = true.
Proof.
  destruct v as [|a [|b [|c rest]]]; cbn [leading groups_of_three];
    rewrite ?andb_false_r; try done.
  intros [Ha [Hb [Hc Hrest]%andb_true_iff]%andb_true_iff]%andb_true_iff.
  rewrite Ha, Hb, Hc, Hrest. reflexivity.
Qed.

(** Grouping a string of [3 q + k] digits, [k] from 1 to 3, gives [k]
    digits and then groups of three behind commas. *)
Lemma grouped_leading (s : string) : forall q k,
  digits s = true -> (1 <= k <= 3)%nat -> String.length s = (3 * q + k)%nat ->
  leading k (grouped s (String.length s)) = true.
Proof.
  induction s as [|c rest IH]; intros q k Hd Hk Hlen; [cbn in Hlen; lia|].
  cbn [digits] in Hd. apply andb_true_iff in Hd as [Hc Hrest].
  cbn [String.length grouped Nat.pred]. cbn [String.length] in Hlen.
  destruct k as [|k]; [lia|]. cbn [leading]. rewrite Hc. cbn [andb].
  destruct k as [|k].
  - assert (String.length rest = 3 * q)%nat as Hrest_len by lia.
    rewrite Hrest_len in *. replace (3 * q)%nat with (3 * q + 0)%nat by lia.
    rewrite mod3_add by lia. rewrite Nat.add_0_r. cbn [Nat.eqb andb].
    destruct q as [|q].
    + destruct rest; [done|cbn in Hrest_len; lia].
    + replace (0 <? 3 * S q)%nat with true by (symmetry; apply Nat.ltb_lt; lia).
      cbn [leading]. change ("," +:+ grouped rest (3 * S q))
        with (String "," (grouped rest (3 * S q))).
      apply leading_three_behind_comma.
      apply (IH q 3%nat); [done|lia|lia].
  - assert (String.length rest = 3 * q + S k)%nat as Hrest_len by lia.
    rewrite Hrest_len at 1 2. rewrite mod3_add by lia.
    cbn [Nat.eqb]. rewrite andb_false_r.
    change ("" +:+ grouped rest (String.length rest))
      with (grouped rest (String.length rest)).
    apply (IH q (S k)); [done|lia|lia].
Qed.

Lemma thousands_grouped (s : string) :
  s <> "" -> digits s = true -> thousands (grouped s (String.length s)) = true.
Proof.
  intros Hne Hd. destruct s as [|c rest]; [done|].
  set (m := String.length rest).
  assert (exists q k, (1 <= k <= 3)%nat /\ String.length (String c rest) = (3 * q + k)%nat)
    as (q & k & Hk & Hlen).
  { exists (m / 3)%nat, (S (m mod 3)). cbn [String.length]. fold m.
    pose proof (Nat.div_mod_eq m 3). pose proof (Nat.mod_upper_bound m 3). lia. }
  pose proof (grouped_leading (String c rest) q k Hd Hk Hlen) as Hlead.
  unfold thousands.
  assert (k = 1 \/ k = 2 \/ k = 3)%nat as Hcases by lia.
  destruct Hcases as [Heq|[Heq|Heq]]; subst k; rewrite Hlead;
    by rewrite ?orb_true_r.
Qed.

Lemma without_grouped (s : string) : forall n,
  digits s = true -> without "," (grouped s n) = s.
Proof.
  induction s as [|c rest IH]; intros n Hd; [done|].
  cbn [digits] in Hd. apply andb_true_iff in Hd as [Hc Hrest].
  cbn [grouped without]. rewrite (digit_not_sep c ",") by done. f_equal.
  rewrite without_app, IH by done.
  by destruct (_ && _).
Qed.

Lemma substring_all (s : string) : substring 0 (String.length s) s = s.
Proof. induction s as [|c s IH]; [done|]. cbn [String.length substring]. by rewrite IH. Qed.

Lemma substring_none (s : string) : substring (String.length s) 0 s = "".
Proof. induction s as [|c s IH]; [done|]. by cbn [String.length substring]. Qed.

Lemma last_split (s : string) :
  s <> "" ->
  exists init d, s = init +:+ String d ""
    /\ substring 0 (String.length s - 1) s = init
    /\ substring (String.length s - 1) 1 s = String d "".
Proof.
  induction s as [|c s IH]; [done|]. intros _. destruct s as [|c' s].
  - by exists "", c.
  - destruct IH as (init & d & Heq & Hinit & Hlast); [done|].
    exists (String c init), d. rewrite app_cons_s, <- Heq. split; [done|].
    cbn [String.length Nat.sub] in Hinit, Hlast |- *.
    rewrite Nat.sub_0_r in *. split.
    + change (String c (substring 0 (String.length s) (String c' s)) = String c init).
      by rewrite Hinit.
    + exact Hlast.
Qed.

Lemma length_zeros k : String.length (zeros k) = k.
Proof. induction k as [|k IH]; [done|]. cbn [zeros String.length]. by rewrite IH. Qed.

Lemma numeral_from_zeros k s : numeral_from 0 (zeros k +:+ s) = numeral_from 0 s.
Proof. induction k as [|k IH]; [done|]. cbn [zeros]. by rewrite app_cons_s. Qed.

Lemma pretty_nonempty (n : N) : pretty n <> "".
Proof. apply (numeral_nonempty _ n), numeral_pretty. Qed.

(** With no fraction digit the numeral is the integer part. *)
Lemma point_0 (n : N) : point 0 n = (pretty n, "").
Proof.
  unfold point. pose proof (pretty_nonempty n) as Hne.
  assert (1 - String.length (pretty n) = 0)%nat as ->.
  { destruct (pretty n); [done|]. cbn [String.length]. lia. }
  change (zeros 0 +:+ pretty n) with (pretty n).
  by rewrite Nat.sub_0_r, substring_all, substring_none.
Qed.

(** With one fraction digit the last digit goes behind the point, and a
    zero stands before it if need be. *)
Lemma point_1 (n : N) :
  exists int d, point 1 n = (int, String d "") /\ int <> ""
    /\ numeral (int +:+ String d "") = Some n.
Proof.
  unfold point. set (padded := zeros (2 - String.length (pretty n)) +:+ pretty n).
  assert (2 <= String.length padded)%nat as Hlen.
  { unfold padded. rewrite length_app_s, length_zeros. lia. }
  assert (padded <> "") as Hne by (intros Heq; rewrite Heq in Hlen; cbn in Hlen; lia).
  destruct (last_split padded Hne) as (int & d & Heq & Hint & Hlast).
  exists int, d. rewrite Hint, Hlast. split; [done|]. split.
  - intros ->. assert (String.length padded = 1%nat) by (by rewrite Heq). lia.
  - rewrite <- Heq, numeral_from_numeral by done. unfold padded.
    rewrite numeral_from_zeros, <- numeral_from_numeral by apply pretty_nonempty.
    apply numeral_pretty.
Qed.

Lemma one_decimal_shape (int : string) (d : ascii) :
  int <> "" -> digits int = true -> is_digit d = true ->
  one_decimal (int +:+ String "." (String d "")) = true.
Proof.
  intros Hne Hd Hdigit. induction int as [|a int IH]; [done|].
  cbn [digits] in Hd. apply andb_true_iff in Hd as [Ha Hint].
  rewrite app_cons_s. cbn [one_decimal]. rewrite Ha. cbn [andb].
  destruct int as [|b int].
  - cbn [closes]. change ("" +:+ String "." (String d "")) with (String "." (String d "")).
    cbn [closes Ascii.eqb Bool.eqb andb]. by rewrite Hdigit.
  - rewrite IH by done. apply orb_true_r.
Qed.

(** [scaled] rounds to the nearest integer. *)
Lemma scaled_nearest (digits_ : nat) (m : positive) (e : Z) :
  let num := if 0 <=? e then (Npos m * 2 ^ Z.to_N e)%N else Npos m in
  let den := if 0 <=? e then 1%N else (2 ^ Z.to_N (- e))%N in
  nearest (num * 10 ^ N.of_nat digits_) den (scaled digits_ m e).
Proof.
  cbv zeta. unfold scaled, nearest. destruct (0 <=? e).
  - lia.
  - set (den := (2 ^ Z.to_N (- e))%N). set (a := (Npos m * 10 ^ N.of_nat digits_)%N).
    assert (den <> 0)%N as Hden by (apply N.pow_nonzero; lia).
    assert (2 * den <> 0)%N as Hden2 by lia.
    pose proof (N.div_mod (2 * a + den) (2 * den) Hden2) as Hdm.
    pose proof (N.mod_lt (2 * a + den) (2 * den) Hden2) as Hlt.
    set (n := ((2 * a + den) `div` (2 * den))%N) in *.
    set (r := ((2 * a + den) `mod` (2 * den))%N) in *.
    clearbody n r den a. nia.
Qed.

End NumeralFacts.

(** ** The alert text *)
Module FormatFacts.
Import Detector Format Samples Reference Numerals NumeralFacts FormatSamples.

Lemma append_assoc (a b c : string) : (a +:+ b) +:+ c = a +:+ (b +:+ c).
Proof.
  induction a as [|x a IH]; [done|].
  change (String x ((a +:+ b) +:+ c) = String x (a +:+ (b +:+ c))).
  by rewrite IH.
Qed.

Lemma append_nil_r (a : string) : a +:+ "" = a.
Proof.
  induction a as [|x a IH]; [done|].
  change (String x (a +:+ "") = String x a). by rewrite IH.
Qed.

Lemma contains_skip a sub s : contains sub s -> contains sub (a +:+ s).
Proof.
  intros (pre & post & ->). exists (a +:+ pre), post. by rewrite append_assoc.
Qed.

Lemma contains_head sub rest : contains sub (sub +:+ rest).
Proof. by exists "", rest. Qed.

Lemma contains_self sub : contains sub sub.
Proof. exists "", "". by rewrite append_nil_r. Qed.

Lemma contains_head3 a b c rest :
  contains (a +:+ b +:+ c) (a +:+ b +:+ c +:+ rest).
Proof. exists "", rest. by rewrite !append_assoc. Qed.

(** Walks down the concatenation until the wanted piece is at its head. *)
Ltac find_piece :=
  repeat first
    [ apply contains_self
    | apply contains_head3
    | apply contains_head
    | apply contains_skip ].

(** Where the parts stand in the text, whatever the runtime prints for
    the two numbers. *)
Lemma formatAlert_layout `{NumberFormat} (alert : Signal) :
  let text := formatAlert alert in
  contains (title_of (type alert)) text
  /\ title_of WOLF_PACK = "🚨 <b>Wolf Pack Cluster Detected</b>"
  /\ title_of VOLUME_SURGE = "🌊 <b>High Volume Surge Detected</b>"
  /\ contains ("🎯 <b>Market:</b> " +:+ sig_marketName alert +:+ nl) text
  /\ contains ("📈 <b>Outcome:</b> " +:+ sig_outcome alert +:+ nl) text
  /\ contains ("💰 <b>Total Vol:</b> $"
               +:+ toLocaleString_en_US 0 (totalVol alert) +:+ nl) text
  /\ contains ("👥 <b>Unique Wallets:</b> "
               +:+ show_nat (uniqueWallets alert) +:+ nl) text
  /\ contains ("⚖️ <b>Buy Pressure:</b> "
               +:+ (if PrimFloat.ltb 100 (ratio alert) then "MAX"
                    else toFixed 1 (ratio alert))
               +:+ "x") text
  /\ contains ("<a href=" +:+ dq +:+ "https://polymarket.com/market/"
               +:+ sig_marketId alert +:+ dq +:+ ">View Market</a>") text.
Proof.
  cbv zeta. unfold formatAlert, volStr, ratioStr, market_link.
  repeat split; try reflexivity; find_piece.
Qed.

Lemma digits_app (a b : string) : digits (a +:+ b) = digits a && digits b.
Proof.
  induction a as [|c a IH]; [done|]. rewrite app_cons_s. cbn [digits].
  by rewrite IH, andb_assoc.
Qed.

(** A finite volume is printed as its sign and the nearest integer,
    grouped by thousands. *)
Lemma volStr_thousands (v : float) sv nv dv :
  exact v = Some (sv, nv, dv) ->
  exists body n,
    volStr v = sign sv +:+ body /\ thousands body = true
    /\ numeral (without "," body) = Some n /\ nearest nv dv n.
Proof.
  assert (forall s n, exists body,
            (let '(int, frac) := point 0 n in
             sign s +:+ grouped int (String.length int) +:+
             match strip_zeros frac with
             | EmptyString => ""
             | kept => "." +:+ kept
             end) = sign s +:+ body
            /\ thousands body = true /\ numeral (without "," body) = Some n) as Hrender.
  { intros s n. rewrite point_0. cbn [strip_zeros].
    exists (grouped (pretty n) (String.length (pretty n))).
    pose proof (numeral_digits _ _ (numeral_pretty n)) as Hd.
    rewrite app_nil_s, without_grouped by done. split; [done|]. split.
    - apply thousands_grouped; [apply pretty_nonempty|done].
    - apply numeral_pretty. }
  unfold exact, volStr. cbn [toLocaleString_en_US reference_format].
  unfold toLocaleString_ref. destruct (Prim2SF v) as [s|s| |s m e]; try done.
  - intros [= <- <- <-]. destruct (Hrender s 0%N) as (body & -> & Hshape & Hval).
    exists body, 0%N. repeat split; try done; unfold nearest; lia.
  - intros Hexact.
    destruct (Hrender s (scaled 0 m e)) as (body & -> & Hshape & Hval).
    exists body, (scaled 0 m e). pose proof (scaled_nearest 0 m e) as Hnear.
    cbv zeta in Hnear. cbn [N.of_nat] in Hnear. rewrite N.pow_0_r, N.mul_1_r in Hnear.
    destruct (0 <=? e); injection Hexact as <- <- <-; done.
Qed.

(** A finite ratio that is not above 100 is printed as its sign and the
    nearest multiple of a tenth, with one decimal place. *)
Lemma ratioStr_one_decimal (r : float) sr nr dr :
  PrimFloat.ltb 100 r = false ->
  exact r = Some (sr, nr, dr) ->
  exists body n,
    ratioStr r = (if (nr =? 0)%N then "" else sign sr) +:+ body
    /\ one_decimal body = true
    /\ numeral (without "." body) = Some n /\ nearest (10 * nr) dr n.
Proof.
  intros Hle.
  assert (forall n, exists int d,
            point 1 n = (int, String d "")
            /\ one_decimal (int +:+ "." +:+ String d "") = true
            /\ numeral (without "." (int +:+ "." +:+ String d "")) = Some n) as Hrender.
  { intros n. destruct (point_1 n) as (int & d & Hpoint & Hne & Hval).
    exists int, d. split; [done|].
    pose proof (numeral_digits _ _ Hval) as Hd. rewrite digits_app in Hd.
    apply andb_true_iff in Hd as [Hint Hd]. cbn [digits] in Hd.
    rewrite andb_true_r in Hd. split.
    - by apply one_decimal_shape.
    - rewrite without_app, (without_digits "." int) by done.
      change ("." +:+ String d "") with (String "."%char (String d "")).
      cbn [without Ascii.eqb Bool.eqb]. by rewrite (digit_not_sep d "."). }
  unfold exact, ratioStr. rewrite Hle. cbn [toFixed reference_format].
  unfold toFixed_ref. destruct (Prim2SF r) as [s|s| |s m e]; try done.
  - intros [= <- <- <-]. destruct (Hrender 0%N) as (int & d & -> & Hshape & Hval).
    cbv beta iota. exists (int +:+ "." +:+ String d ""), 0%N.
    repeat split; try done; unfold nearest; lia.
  - intros Hexact. destruct (Hrender (scaled 1 m e)) as (int & d & -> & Hshape & Hval).
    cbv beta iota. exists (int +:+ "." +:+ String d ""), (scaled 1 m e).
    pose proof (scaled_nearest 1 m e) as Hnear.
    cbv zeta in Hnear. change (10 ^ N.of_nat 1)%N with 10%N in Hnear.
    assert (2 ^ Z.to_N e <> 0)%N as Hpow by (apply N.pow_nonzero; lia).
    destruct (0 <=? e); injection Hexact as <- <- <-.
    + replace (N.pos m * 2 ^ Z.to_N e =? 0)%N with false
        by (symmetry; apply N.eqb_neq; lia).
      repeat split; try done; unfold nearest in *; lia.
    + repeat split; try done; unfold nearest in *; lia.
Qed.



(** The two renderings of that signal, read back: 1234567.5 is printed as
    1,234,568 and 3.46 as 3.5; and what the two shapes refuse. *)
Example surge_reads_back :
  volStr 1234567.5 = "1,234,568" /\ ratioStr 3.46 = "3.5"
  /\ thousands "1,234,568" = true /\ numeral (without "," "1,234,568") = Some 1234568%N
  /\ nearest 5302427037204480 4294967296 1234568
  /\ one_decimal "3.5" = true /\ numeral (without "." "3.5") = Some 35%N
  /\ nearest (10 * 7791227355350958) 2251799813685248 35
  /\ thousands "1234568" = false /\ thousands "1,234,56" = false
  /\ thousands "1,234,568.0" = false
  /\ one_decimal "3" = false /\ one_decimal "3.46" = false /\ one_decimal ".5" = false.
Proof. unfold nearest. repeat split; try reflexivity; lia. Qed.


(** The text of two alerts under the reference rendering. *)
Example formatAlert_pack :
  formatAlert pack_alert =
  "🚨 <b>Wolf Pack Cluster Detected</b>" +:+ nl +:+ nl +:+
  "🎯 <b>Market:</b> Will it rain?" +:+ nl +:+
  "📈 <b>Outcome:</b> Yes" +:+ nl +:+
  "💰 <b>Total Vol:</b> $10,001" +:+ nl +:+
  "👥 <b>Unique Wallets:</b> 3" +:+ nl +:+
  "⚖️ <b>Buy Pressure:</b> MAXx" +:+ nl +:+
  "⏱ <b>Time Window:</b> 60s" +:+ nl +:+ nl +:+
  "<a href=" +:+ dq +:+ "https://polymarket.com/market/7" +:+ dq +:+ ">View Market</a>".
Proof. vm_compute. reflexivity. Qed.

Example formatAlert_surge :
  formatAlert (signal VOLUME_SURGE 1234567.5 2 3.46 "will-it-rain") =
  "🌊 <b>High Volume Surge Detected</b>" +:+ nl +:+ nl +:+
  "🎯 <b>Market:</b> Will it rain?" +:+ nl +:+
  "📈 <b>Outcome:</b> Yes" +:+ nl +:+
  "💰 <b>Total Vol:</b> $1,234,568" +:+ nl +:+
  "👥 <b>Unique Wallets:</b> 2" +:+ nl +:+
  "⚖️ <b>Buy Pressure:</b> 3.5x" +:+ nl +:+
  "⏱ <b>Time Window:</b> 60s" +:+ nl +:+ nl +:+
  "<a href=" +:+ dq +:+ "https://polymarket.com/market/will-it-rain" +:+ dq
  +:+ ">View Market</a>".
Proof. vm_compute. reflexivity. Qed.

(** A ratio of exactly 100 is not above 100; a NaN ratio is not either. *)
Example ratioStr_boundary :
  ratioStr 100 = "100.0" /\ ratioStr 100.5 = "MAX" /\ ratioStr nan = "NaN".
Proof. vm_compute. repeat split. Qed.

End FormatFacts.

(** ** Further properties of the source *)
Module MoreFacts.
Import Detector Views ObjectFacts GroupFacts LoopFacts DetectorFacts WindowFacts.
Import Tracker Ingest Samples TrackerFacts.

(** X1. [addTrade] keeps exactly the trades of the extended window that
    are younger than 60000 ms (a NaN timestamp never is), and does not
    touch the cooldowns. *)
Theorem addTrade_exact_retention d trade now :
  alertCooldowns (addTrade d trade now) = alertCooldowns d /\
  forall x,
    x ∈ tradeWindow (addTrade d trade now) <->
    (x ∈ tradeWindow d \/ x = trade) /\
    exists ts, timestamp x = Some ts /\ now - ts < 60000.
Proof. split; [done|]. intros x. apply addTrade_retains. Qed.

(** X2. [checkSignals] returns exactly when no trade of the window carries
    a market identifier that [Object.prototype] defines; otherwise building
    [groups] throws. *)
Theorem checkSignals_throws_on_inherited_key d now :
  (exists r, checkSignals d now = OK r) <->
  Forall (fun t => inherited (marketId t) = false) (tradeWindow d).
Proof. apply checkSignals_returns. Qed.

Example constructor_market_throws :
  checkSignals (detector_with [trade 1000 20000 "ann" "constructor" Buy]) 5000
  = Throw (TypeError "Cannot read properties of undefined (reading 'push')").
Proof. reflexivity. Qed.

(** Signals come out in the order of [Object.entries]: numeric market
    identifiers first, ascending, then the others as first seen. *)
Example signals_follow_entries_order :
  exists d',
    checkSignals (detector_with three_markets) 5000
    = OK ([ signal VOLUME_SURGE 20000 1 20000 "5";
            signal VOLUME_SURGE 20000 1 20000 "12";
            signal VOLUME_SURGE 20000 1 20000 "zz" ], d').
Proof. eexists. vm_compute. reflexivity. Qed.

(** X3. A call of [checkSignals] leaves the window as it is, and leaves
    the cooldown of every market it emits no signal for as it is. *)
Theorem checkSignals_frame d now signals d' :
  checkSignals d now = OK (signals, d') ->
  tradeWindow d' = tradeWindow d /\
  forall k, about k signals = [] -> alertCooldowns d' !! k = alertCooldowns d !! k.
Proof.
  intros Hrun. destruct (checkSignals_spec _ _ _ _ Hrun) as [Hwin Hk].
  split; [done|]. intros k Hnone. specialize (Hk k).
  destruct (partition (tradeWindow d) k) as [g|]; [|by destruct Hk].
  cbn zeta in Hk. destruct Hk as [Ha ->]. rewrite Ha in Hnone.
  by destruct (verdict _ _ _).
Qed.

Lemma checkSignals_frame_witness :
  tradeWindow (stamped pack 5000) = tradeWindow (detector_with pack).
Proof.
  refine (proj1 (checkSignals_frame (detector_with pack) 5000 [pack_alert] _ _)).
  vm_compute. reflexivity.
Defined.

(** X4. The display data of a signal come from the first trade of its
    market in the window, and its volume from the market's buys in window
    order. *)
Theorem partition_holds_first_trade w k g :
  partition w k = Some g ->
  buys g = buys_in k w /\ sells g = sells_in k w /\
  exists t rest, market_trades k w = t :: rest /\ meta g = t.
Proof. apply partition_spec. Qed.

Lemma partition_holds_first_trade_witness :
  buys pack_group = buys_in "7" pack.
Proof.
  refine (proj1 (partition_holds_first_trade pack "7" pack_group _)).
  vm_compute. reflexivity.
Defined.

(** When the user list cannot be read, the signals of the pass are lost:
    their markets are stamped but nobody is told. *)
Example stamped_but_not_sent :
  scanGlobalMarket (fun _ => 100000) (OK []) (Throw (Rejected "store unavailable"))
                   (detector_with young_pack)
  = ([ConsoleError "Global Scan Error: store unavailable"], stamped young_pack 100000).
Proof. vm_compute. reflexivity. Qed.

Lemma scan_wallet_found `{NumberFormat} chatId w world :
  (scan_wallet chatId w world).2 = true ->
  exists text, SendMessage chatId text ∈ (scan_wallet chatId w world).1.
Proof.
  unfold scan_wallet, try_wallet, store.
  destruct (fetched world) as [[| |[|[trade|] rest]]|e]; cbn; try done.
  destruct (changed w (currentHash trade)); cbn.
  - destruct (is_trade trade); cbn.
    + intros _. exists (alert_text w trade).
      destruct (updateOne world); cbn; apply list_elem_of_here.
    + by destruct (updateOne world).
  - destruct (negb (truthy (lastHash w))); [|done].
    by destruct (updateOne world).
Qed.

(** X5. A manual scan is always answered: whatever the wallets and
    whatever fails while they are scanned, at least one message goes to the
    chat (an alert, or one of the two acknowledgements), provided the user
    record itself could be read. *)
Theorem manual_scan_always_answers `{NumberFormat} user worlds chatId :
  exists effects,
    scanSpecificWallets (OK user) worlds chatId true = OK effects /\
    exists text, SendMessage chatId text ∈ effects.
Proof.
  unfold scanSpecificWallets. cbn [JS.bind].
  destruct user as [[|w0 wallets]|].
  - eexists. split; [done|]. eexists. apply list_elem_of_here.
  - rewrite scan_loop_effects. cbn [orb andb].
    set (visits := imap (fun i w => (w, worlds i)) (w0 :: wallets)).
    eexists. split; [done|].
    destruct (existsb (fun v => (scan_wallet chatId v.1 v.2).2) visits) eqn:Hfound.
    + apply existsb_exists in Hfound as ([w world] & Hin & Hhere).
      destruct (scan_wallet_found chatId w world Hhere) as [text Htext].
      exists text. apply elem_of_app. left.
      apply list_elem_of_In, in_flat_map. exists (w, world).
      split; [done|]. by apply list_elem_of_In.
    + eexists. apply elem_of_app. right. apply list_elem_of_here.
  - eexists. split; [done|]. eexists. apply list_elem_of_here.
Qed.

(** X6. A market whose trade fetch fails is skipped: the pass does what it
    would have done had that market not been on the hot list. *)
Theorem failed_market_is_skipped `{NumberFormat} clock before m e after users d :
  scanGlobalMarket clock (OK (before ++ (m, Throw e) :: after)) users d
  = scanGlobalMarket clock (OK (before ++ after)) users d.
Proof.
  unfold scanGlobalMarket. by rewrite !fold_left_app.
Qed.

End MoreFacts.

(** ** Order on the doubles the thresholds are *)
Module FloatFacts.

(** A positive finite double below another one is below whatever that one
    is below; the comparison is the one [PrimFloat.ltb] is specified by. *)
Lemma SFltb_finite_pos m1 e1 s :
  SFltb (S754_finite false m1 e1) s = true ->
  forall m0 e0, (e0 < e1 \/ (e0 = e1 /\ (m0 <= m1)%positive)) ->
  SFltb (S754_finite false m0 e0) s = true.
Proof.
  unfold SFltb, SFcompare. intros H m0 e0 Hlow.
  destruct s as [sg|sg| |sg m e]; try done.
  destruct sg; [done|].
  destruct (Z.compare_spec e1 e) as [->|Hlt|Hgt]; [| |done].
  - destruct Hlow as [Hlow|[-> Hm]].
    + by rewrite (proj2 (Z.compare_lt_iff _ _) Hlow).
    + rewrite Z.compare_refl.
      rewrite Pos.compare_cont_spec in *. simpl in *.
      destruct (Pos.compare_spec m1 m); try done.
      assert (m0 < m)%positive as Hlt by lia.
      by rewrite (proj2 (Pos.compare_lt_iff _ _) Hlt).
  - assert (e0 < e) as Hlt' by lia.
    by rewrite (proj2 (Z.compare_lt_iff _ _) Hlt').
Qed.

Lemma above_10000_above_100 v :
  PrimFloat.ltb 10000 v = true -> PrimFloat.ltb 100 v = true.
Proof.
  rewrite !ltb_spec. intros H.
  eapply (SFltb_finite_pos _ _ _ H). vm_compute. by left.
Qed.

Lemma above_15000_above_10000 v :
  PrimFloat.ltb 15000 v = true -> PrimFloat.ltb 10000 v = true.
Proof.
  rewrite !ltb_spec. intros H.
  eapply (SFltb_finite_pos _ _ _ H). right. split; [reflexivity|].
  vm_compute. discriminate.
Qed.

Lemma above_15000_above_150 v :
  PrimFloat.ltb 15000 v = true -> PrimFloat.ltb 150 v = true.
Proof.
  rewrite !ltb_spec. intros H.
  eapply (SFltb_finite_pos _ _ _ H). vm_compute. by left.
Qed.

(** Nothing is below NaN. *)
Lemma above_not_nan a v : PrimFloat.ltb a v = true -> is_nan v = false.
Proof.
  rewrite ltb_spec. unfold is_nan. rewrite FloatAxioms.eqb_spec.
  unfold SFltb, SFeqb.
  destruct (Prim2SF v) as [s|s| |s m e]; simpl.
  - done.
  - by destruct s.
  - by destruct (Prim2SF a).
  - destruct s; rewrite Z.compare_refl, Pos.compare_cont_refl; done.
Qed.

End FloatFacts.

(** ** What an emitted signal tells *)
Module SignalFacts.
Import Detector Views ObjectFacts GroupFacts LoopFacts DetectorFacts FloatFacts.
Import Variants Samples.

Lemma classify_cases uniqueBuyers buyVol ty :
  classify uniqueBuyers buyVol = Some ty ->
  match ty with
  | WOLF_PACK => (3 <= uniqueBuyers)%nat /\ PrimFloat.ltb 10000 buyVol = true
  | VOLUME_SURGE => (uniqueBuyers < 3)%nat /\ PrimFloat.ltb 15000 buyVol = true
  end.
Proof.
  unfold classify.
  destruct (3 <=? uniqueBuyers)%nat eqn:Hub; cbn [andb].
  - apply Nat.leb_le in Hub.
    destruct (PrimFloat.ltb 10000 buyVol) eqn:Hv.
    + by intros [= <-].
    + destruct (PrimFloat.ltb 15000 buyVol) eqn:Hs; [|done].
      apply above_15000_above_10000 in Hs. congruence.
  - apply Nat.leb_gt in Hub.
    destruct (PrimFloat.ltb 15000 buyVol) eqn:Hs; [|done].
    by intros [= <-].
Qed.

(** Every signal of a batch is the verdict on the partition of its market. *)
Lemma emitted_from_partition d now signals d' s :
  checkSignals d now = OK (signals, d') ->
  s ∈ signals ->
  exists g,
    partition (tradeWindow d) (sig_marketId s) = Some g /\
    cooling (alertCooldowns d) now (sig_marketId s) = false /\
    yield (sig_marketId s) g = Some s /\
    about (sig_marketId s) signals = [s] /\
    alertCooldowns d' !! sig_marketId s = Some now.
Proof.
  intros Hrun Hin.
  destruct (checkSignals_spec _ _ _ _ Hrun) as [_ Hk].
  specialize (Hk (sig_marketId s)).
  assert (s ∈ about (sig_marketId s) signals) as Habout.
  { unfold about. apply list_elem_of_In, filter_In.
    rewrite <- list_elem_of_In. by rewrite String.eqb_refl. }
  destruct (partition (tradeWindow d) (sig_marketId s)) as [g|].
  - cbn zeta in Hk. destruct Hk as [Ha Hstamp].
    rewrite verdict_yield in Ha, Hstamp. exists g. split; [done|].
    destruct (cooling (alertCooldowns d) now (sig_marketId s)).
    + rewrite Ha in Habout. by apply elem_of_nil in Habout.
    + destruct (yield (sig_marketId s) g) as [s'|].
      * rewrite Ha in Habout. apply list_elem_of_singleton in Habout. by subst s'.
      * rewrite Ha in Habout. by apply elem_of_nil in Habout.
  - destruct Hk as [Ha _]. rewrite Ha in Habout. by apply elem_of_nil in Habout.
Qed.

(** X7. Every signal [checkSignals] returns is backed by the window: it
    carries the buy volume and the number of distinct buyers of its
    market's partition, the volume is a number (not NaN), a WOLF_PACK has
    at least 3 buyers and more than 10000, a VOLUME_SURGE has more than
    15000 and, the pack being tested first, fewer than 3 buyers; and the
    market is stamped with the time of the call. *)
Theorem emitted_signals_are_sound d now signals d' s :
  checkSignals d now = OK (signals, d') ->
  s ∈ signals ->
  (exists g,
     partition (tradeWindow d) (sig_marketId s) = Some g /\
     totalVol s = volume (buys g) /\
     uniqueWallets s = unique_users (buys g) /\
     ratio s = ratio_of (volume (buys g)) (volume (sells g)))
  /\ is_nan (totalVol s) = false
  /\ match type s with
     | WOLF_PACK =>
         (3 <= uniqueWallets s)%nat /\ PrimFloat.ltb 10000 (totalVol s) = true
     | VOLUME_SURGE =>
         (uniqueWallets s < 3)%nat /\ PrimFloat.ltb 15000 (totalVol s) = true
     end
  /\ alertCooldowns d' !! sig_marketId s = Some now.
Proof.
  intros Hrun Hin.
  destruct (emitted_from_partition _ _ _ _ _ Hrun Hin)
    as (g & Hpart & _ & Hyield & _ & Hstamp).
  unfold yield in Hyield.
  destruct (ratio_filtered _ _); [done|].
  destruct (classify _ _) as [ty|] eqn:Hty; [|done].
  injection Hyield as <-. cbn [totalVol uniqueWallets ratio type sig_marketId] in *.
  pose proof (classify_cases _ _ _ Hty) as Hcases.
  split; [by exists g|]. split; [|by split].
  destruct ty; destruct Hcases as [_ Hv]; by eapply above_not_nan.
Qed.

Lemma emitted_signals_are_sound_witness :
  (3 <= uniqueWallets pack_alert)%nat /\
  PrimFloat.ltb 10000 (totalVol pack_alert) = true.
Proof.
  refine (proj1 (proj2 (proj2
    (emitted_signals_are_sound (detector_with pack) 5000 [pack_alert]
       (stamped pack 5000) pack_alert _ _)))).
  - vm_compute. reflexivity.
  - apply list_elem_of_here.
Defined.

End SignalFacts.

(** ** Batches of signals: order, repetition, and the scanner's windows *)
Module BatchFacts.
Import Detector Views ObjectFacts GroupFacts LoopFacts DetectorFacts FloatFacts.
Import Variants Format Ingest Samples SignalFacts IngestFacts FormatFacts.

Lemma checkSignals_signals d now signals d' :
  checkSignals d now = OK (signals, d') ->
  exists groups,
    group_trades [] (tradeWindow d) = OK groups /\
    NoDup (map fst groups) /\
    signals = omap (verdict (alertCooldowns d) now) (Object_entries groups).
Proof.
  unfold checkSignals.
  destruct (group_trades [] (tradeWindow d)) as [groups|e] eqn:Hg; [|done].
  cbn [JS.bind].
  destruct (groups_of_window _ _ Hg) as [Hnd _].
  pose proof (Object_entries_keys _ Hnd) as Hnd'.
  destruct (fold_analyze now (alertCooldowns d) (Object_entries groups)
              (alertCooldowns d) [] Hnd') as (c' & Hrun & _); [done|].
  rewrite Hrun. intros [= <- <-]. by exists groups.
Qed.

Section Ids.
Context (cooldowns : gmap string Z) (now : Z).

(** The market identifiers of the signals pushed for a list of entries. *)
Lemma ids_omap_Forall (P : string -> Prop) es :
  Forall (fun e : string * Group => P e.1) es ->
  Forall P (map sig_marketId (omap (verdict cooldowns now) es)).
Proof.
  induction 1 as [|e es He Hes IH]; [constructor|].
  rewrite omap_cons. destruct (verdict cooldowns now e) as [s|] eqn:Hv; [|done].
  cbn [map]. constructor; [|done]. by rewrite (verdict_id _ _ _ _ Hv).
Qed.

Lemma ids_omap_NoDup es :
  NoDup (map fst es) ->
  NoDup (map sig_marketId (omap (verdict cooldowns now) es)).
Proof.
  induction es as [|e es IH]; [constructor|].
  rewrite fmap_cons. intros [Hfresh Hnd]%NoDup_cons. rewrite omap_cons.
  destruct (verdict cooldowns now e) as [s|] eqn:Hv; [|by auto].
  cbn [map]. apply NoDup_cons. split; [|by auto].
  rewrite (verdict_id _ _ _ _ Hv). intros Hin.
  assert (Forall (fun k => k <> e.1)
            (map sig_marketId (omap (verdict cooldowns now) es))) as Hall.
  { apply ids_omap_Forall, Forall_forall. intros e' He' Heq. apply Hfresh.
    rewrite <- Heq. by apply (list_elem_of_fmap_2 fst). }
  by apply (proj1 (Forall_forall _ _) Hall) in Hin.
Qed.

Lemma ids_omap_sorted es :
  StronglySorted index_le es ->
  StronglySorted (fun a b => (index_of a <= index_of b)%N)
    (map sig_marketId (omap (verdict cooldowns now) es)).
Proof.
  induction 1 as [|e es Hs IH Hle]; [constructor|].
  rewrite omap_cons. destruct (verdict cooldowns now e) as [s|] eqn:Hv; [|done].
  cbn [map]. constructor; [done|].
  rewrite (verdict_id _ _ _ _ Hv). by apply ids_omap_Forall.
Qed.

End Ids.

(** X8. The signals of one batch are about distinct markets and come in
    the order of [Object.entries]: first the markets whose identifier is an
    array index, in ascending numeric order, then the others. *)
Theorem signals_follow_Object_entries d now signals d' :
  checkSignals d now = OK (signals, d') ->
  exists numeric named,
    map sig_marketId signals = numeric ++ named /\
    Forall (fun k => is_index k = true) numeric /\
    Forall (fun k => is_index k = false) named /\
    StronglySorted (fun a b => (index_of a <= index_of b)%N) numeric /\
    NoDup (numeric ++ named).
Proof.
  intros Hrun.
  destruct (checkSignals_signals _ _ _ _ Hrun) as (groups & _ & Hnd & ->).
  pose proof (ids_omap_NoDup (alertCooldowns d) now _ (Object_entries_keys _ Hnd))
    as Hdistinct.
  unfold Object_entries in *. rewrite omap_app, map_app in *.
  eexists _, _. split; [reflexivity|]. split; [|split; [|split]].
  - apply ids_omap_Forall. rewrite merge_sort_Permutation. apply Forall_forall.
    intros e [_ He]%list_elem_of_In%filter_In. done.
  - apply ids_omap_Forall, Forall_forall.
    intros e [_ He]%list_elem_of_In%filter_In. by apply negb_true_iff in He.
  - apply ids_omap_sorted, StronglySorted_merge_sort.
    + intros a b c. unfold index_le. lia.
    + intros a b. unfold index_le. lia.
  - exact Hdistinct.
Qed.

Lemma signals_follow_Object_entries_witness :
  exists numeric named,
    map sig_marketId
      [ signal VOLUME_SURGE 20000 1 20000 "5";
        signal VOLUME_SURGE 20000 1 20000 "12";
        signal VOLUME_SURGE 20000 1 20000 "zz" ] = numeric ++ named /\
    Forall (fun k => is_index k = true) numeric /\
    Forall (fun k => is_index k = false) named.
Proof.
  destruct (signals_follow_Object_entries (detector_with three_markets) 5000
              [ signal VOLUME_SURGE 20000 1 20000 "5";
                signal VOLUME_SURGE 20000 1 20000 "12";
                signal VOLUME_SURGE 20000 1 20000 "zz" ]
              {| tradeWindow := three_markets;
                 alertCooldowns := {[ "5" := 5000; "12" := 5000; "zz" := 5000 ]} |})
    as (numeric & named & H1 & H2 & H3 & _).
  - vm_compute. reflexivity.
  - by exists numeric, named.
Defined.

(** X9. [checkSignals] does not prune and does not look at timestamps:
    with no [addTrade] in between, a market that fired at time [T] fires
    again, with the same signal, at any call made 5 minutes or more after
    [T], however old its trades have become. *)
Theorem stale_window_fires_again d T signals d1 s T' :
  checkSignals d T = OK (signals, d1) ->
  s ∈ signals ->
  300000 <= T' - T ->
  exists again d2,
    checkSignals d1 T' = OK (again, d2) /\
    s ∈ again /\
    tradeWindow d2 = tradeWindow d.
Proof.
  intros Hrun Hin Hlate.
  destruct (emitted_from_partition _ _ _ _ _ Hrun Hin)
    as (g & Hpart & _ & Hyield & _ & Hstamp).
  destruct (checkSignals_spec _ _ _ _ Hrun) as [Hwin _].
  assert (exists r, checkSignals d1 T' = OK r) as [[again d2] Hagain].
  { apply checkSignals_returns. rewrite Hwin.
    apply (checkSignals_returns d T). eauto. }
  exists again, d2. split; [done|].
  destruct (checkSignals_spec _ _ _ _ Hagain) as [Hwin2 Hk].
  specialize (Hk (sig_marketId s)). rewrite Hwin, Hpart in Hk. cbn zeta in Hk.
  destruct Hk as [Ha _]. split; [|congruence].
  assert (cooling (alertCooldowns d1) T' (sig_marketId s) = false) as Hcool.
  { unfold cooling. rewrite Hstamp.
    replace (T' - T <? 300000) with false by (symmetry; apply Z.ltb_ge; lia).
    apply andb_false_r. }
  rewrite verdict_yield, Hcool, Hyield in Ha.
  assert (s ∈ about (sig_marketId s) again) as Hs by (rewrite Ha; left).
  unfold about in Hs. apply list_elem_of_In, filter_In in Hs as [Hs _].
  by apply list_elem_of_In.
Qed.

Lemma stale_window_fires_again_witness :
  exists again d2,
    checkSignals (stamped pack 5000) 1000000 = OK (again, d2) /\
    pack_alert ∈ again /\ tradeWindow d2 = pack.
Proof.
  apply (stale_window_fires_again (detector_with pack) 5000 [pack_alert]).
  - vm_compute. reflexivity.
  - apply list_elem_of_here.
  - lia.
Defined.

(** Feeding keeps a window of buys a window of buys. *)
Lemma addTrade_buy_only d t now :
  Forall (fun x => side x = Buy) (tradeWindow d) -> side t = Buy ->
  Forall (fun x => side x = Buy) (tradeWindow (addTrade d t now)).
Proof.
  intros Hall Ht. apply Forall_forall.
  intros x [[Hx| ->] _]%WindowFacts.addTrade_retains; [|done].
  by apply (proj1 (Forall_forall _ _) Hall).
Qed.

Lemma feed_buy_only clock m trades : forall st,
  Forall (fun x => side x = Buy) (tradeWindow st.1) ->
  Forall (fun x => side x = Buy) (tradeWindow (feed clock m trades st).1).
Proof.
  induction trades as [|[t|] trades IH]; intros [d tick] Hall; cbn [feed]; [done| |done].
  destruct (is_BUY t); [|by apply IH]. apply IH. cbn [fst].
  by apply addTrade_buy_only.
Qed.

Lemma pass_buy_only clock arrivals : forall st,
  Forall (fun x => side x = Buy) (tradeWindow st.1) ->
  Forall (fun x => side x = Buy)
         (tradeWindow (fold_left (scan_market clock) arrivals st).1).
Proof.
  induction arrivals as [|[m [trades|e]] arrivals IH]; intros st Hall;
    cbn [fold_left]; [done| |by apply IH].
  apply IH. unfold scan_market. cbn [fst snd]. by apply feed_buy_only.
Qed.

(** A partition made of buys has no sell volume: the ratio filter lets it
    through and its ratio is its buy volume. *)
Lemma buy_only_partition w k g :
  Forall (fun x => side x = Buy) w ->
  partition w k = Some g ->
  sells g = [].
Proof.
  intros Hall [_ [-> _]]%partition_spec.
  unfold sells_in, market_trades.
  induction w as [|t w IH]; [done|].
  apply Forall_cons in Hall as [Ht Hall]. cbn [List.filter].
  destruct (String.eqb (marketId t) k); [|by apply IH].
  cbn [List.filter]. unfold is_Buy at 1. rewrite Ht. cbn. by apply IH.
Qed.

Lemma buy_only_signal d now signals d' s :
  Forall (fun x => side x = Buy) (tradeWindow d) ->
  checkSignals d now = OK (signals, d') ->
  s ∈ signals ->
  ratio s = totalVol s /\ PrimFloat.ltb 100 (ratio s) = true.
Proof.
  intros Hall Hrun Hin.
  destruct (emitted_signals_are_sound _ _ _ _ _ Hrun Hin)
    as ((g & Hpart & Hvol & _ & Hratio) & _ & Hty & _).
  rewrite (buy_only_partition _ _ _ Hall Hpart) in Hratio.
  assert (ratio s = totalVol s) as Heq by (by rewrite Hratio, Hvol).
  split; [done|]. rewrite Heq.
  destruct (type s); destruct Hty as [_ Hv].
  - by apply above_10000_above_100.
  - by apply above_10000_above_100, above_15000_above_10000.
Qed.



(** X11. The variant with the lowered limits (100 and 150) raises every
    signal that the limits 10000 and 15000 raise, with the same type. *)
Theorem lowered_limits_keep_every_signal uniqueBuyers buyVol ty :
  classify uniqueBuyers buyVol = Some ty ->
  classify_lowered uniqueBuyers buyVol = Some ty.
Proof.
  intros Hty. apply classify_cases in Hty.
  unfold classify_lowered, classify_with.
  destruct ty; destruct Hty as [Hub Hv].
  - apply Nat.leb_le in Hub. rewrite Hub.
    by rewrite (above_10000_above_100 _ Hv).
  - apply Nat.leb_gt in Hub. rewrite Hub. cbn [andb].
    by rewrite (above_15000_above_150 _ Hv).
Qed.

Lemma lowered_limits_keep_every_signal_witness :
  classify_lowered 3 10001 = Some WOLF_PACK.
Proof. apply lowered_limits_keep_every_signal. reflexivity. Defined.

End BatchFacts.

(** ** The tracker from one pass to the next *)
Module PassFacts.
Import Tracker Passes Samples TrackerFacts.

Lemma set_lastHash_addresses addr hash wallets :
  map address (set_lastHash addr hash wallets) = map address wallets.
Proof.
  induction wallets as [|w wallets IH]; [done|]. cbn [set_lastHash].
  destruct (String.eqb (address w) addr); cbn [map]; [done|]. by rewrite IH.
Qed.

(** With distinct addresses the positional write reaches the one wallet of
    that address. *)
Lemma set_lastHash_touch addr hash wallets :
  NoDup (map address wallets) ->
  set_lastHash addr hash wallets = map (touch addr hash) wallets.
Proof.
  induction wallets as [|w wallets IH]; [done|].
  rewrite fmap_cons. intros [Hfresh Hnd]%NoDup_cons.
  cbn [set_lastHash map]. unfold touch at 1.
  destruct (String.eqb_spec (address w) addr) as [Heq|Hne].
  - f_equal. rewrite <- (map_id wallets) at 1. apply map_ext_in.
    intros w' Hw'. unfold touch.
    destruct (String.eqb_spec (address w') addr); [|done].
    exfalso. apply Hfresh. rewrite Heq. apply list_elem_of_In, in_map_iff.
    by exists w'.
  - f_equal. by apply IH.
Qed.

Lemma touched_address w e : address (touched w e) = address w.
Proof.
  destruct e as [| c a h |]; cbn [touched]; [done| |done].
  unfold touch. by destruct (String.eqb (address w) a).
Qed.

Lemma apply_effect_touched wallets e :
  NoDup (map address wallets) ->
  apply_effect wallets e = map (fun w => touched w e) wallets.
Proof.
  intros Hnd. destruct e as [| c a h |]; cbn [apply_effect touched].
  - by rewrite map_id.
  - by apply set_lastHash_touch.
  - by rewrite map_id.
Qed.

Lemma stored_after_touched effects : forall wallets,
  NoDup (map address wallets) ->
  stored_after wallets effects = map (fun w => fold_left touched effects w) wallets.
Proof.
  unfold stored_after.
  induction effects as [|e effects IH]; intros wallets Hnd; cbn [fold_left].
  - by rewrite map_id.
  - rewrite apply_effect_touched by done. rewrite IH.
    + by rewrite map_map.
    + rewrite map_map. erewrite map_ext; [exact Hnd|].
      intros w. apply touched_address.
Qed.

Section OnePass.
Context `{NumberFormat} (chatId : string).

(** The only write of a wallet's scan is to its own address. *)
Lemma scan_wallet_writes w world c a h :
  UpdateLastHash c a h ∈ (scan_wallet chatId w world).1 -> a = address w.
Proof.
  unfold scan_wallet, try_wallet, store.
  destruct (fetched world) as [[| |[|[trade|] rest]]|e]; cbn;
    try (by intros ?%elem_of_nil); try (by intros [=]%list_elem_of_singleton).
  destruct (changed w (currentHash trade)); cbn.
  - destruct (is_trade trade), (updateOne world); cbn;
      rewrite ?elem_of_cons, ?elem_of_nil; intros Hin;
      repeat (destruct Hin as [Hin|Hin]; try done); by injection Hin as _ -> _.
  - destruct (negb (truthy (lastHash w))); [|by intros ?%elem_of_nil].
    destruct (updateOne world); cbn;
      rewrite ?elem_of_cons, ?elem_of_nil; intros Hin;
      repeat (destruct Hin as [Hin|Hin]; try done); by injection Hin as _ -> _.
Qed.

(** Writes to other addresses leave a wallet as it is. *)
Lemma touched_elsewhere effects : forall w,
  (forall c a h, UpdateLastHash c a h ∈ effects -> a <> address w) ->
  fold_left touched effects w = w.
Proof.
  induction effects as [|e effects IH]; intros w Hother; [done|].
  cbn [fold_left].
  assert (touched w e = w) as ->.
  { destruct e as [| c a h |]; cbn [touched]; [done| |done].
    unfold touch. destruct (String.eqb_spec (address w) a) as [Heq|]; [|done].
    exfalso. apply (Hother c a h); [left|done]. }
  apply IH. intros c a h Hin. apply (Hother c a h). by right.
Qed.

Lemma after_scan_address v : address (after_scan chatId v) = address v.1.
Proof.
  unfold after_scan. generalize (scan_wallet chatId v.1 v.2).1. intros effects.
  generalize v.1. induction effects as [|e effects IH]; intros w; [done|].
  cbn [fold_left]. by rewrite IH, touched_address.
Qed.

Lemma pass_effects_reach pre v post :
  (forall v', v' ∈ pre ++ post -> address v'.1 <> address v.1) ->
  fold_left touched
    (flat_map (fun v => (scan_wallet chatId v.1 v.2).1) (pre ++ v :: post)) v.1
  = after_scan chatId v.
Proof.
  intros Hother. rewrite flat_map_app. cbn [flat_map].
  rewrite !fold_left_app.
  rewrite (touched_elsewhere _ v.1).
  - fold (after_scan chatId v). apply touched_elsewhere.
    intros c a h [v' [Hv' Hin]]%list_elem_of_In%in_flat_map.
    apply list_elem_of_In, scan_wallet_writes in Hin. subst a.
    rewrite after_scan_address. apply Hother, elem_of_app. right.
    by apply list_elem_of_In.
  - intros c a h [v' [Hv' Hin]]%list_elem_of_In%in_flat_map.
    apply list_elem_of_In, scan_wallet_writes in Hin. subst a.
    apply Hother, elem_of_app. left. by apply list_elem_of_In.
Qed.

(** After a pass over wallets of distinct addresses, the document holds
    each wallet as its own scan left it. *)
Lemma stored_after_pass visits :
  NoDup (map (fun v : Wallet * World => address v.1) visits) ->
  stored_after (map fst visits)
    (flat_map (fun v => (scan_wallet chatId v.1 v.2).1) visits)
  = map (after_scan chatId) visits.
Proof.
  intros Hnd. rewrite stored_after_touched by (by rewrite map_map).
  rewrite map_map. apply map_ext_in. intros v Hv.
  apply in_split in Hv as (pre & post & ->).
  apply pass_effects_reach. intros v' Hv' Heq.
  rewrite map_app in Hnd. cbn [map] in Hnd.
  apply NoDup_app in Hnd as (_ & Hpre & [Hpost _]%NoDup_cons).
  apply elem_of_app in Hv' as [Hv'|Hv'].
  - apply (Hpre (address v.1)); [|left].
    rewrite <- Heq. by apply (list_elem_of_fmap_2 (fun v => address v.1)).
  - apply Hpost. rewrite <- Heq.
    by apply (list_elem_of_fmap_2 (fun v => address v.1)).
Qed.

(** What a scan whose write is accepted leaves of a wallet: the wallet as
    it was, when the scan sent nothing, or the wallet with the fingerprint
    of the record it saw. *)
Lemma after_scan_cases w world :
  updateOne world = OK tt ->
  (after_scan chatId (w, world) = w /\
   forall c t, SendMessage c t ∉ (scan_wallet chatId w world).1)
  \/ exists trade rest,
       fetched world = OK (Records (Some trade :: rest)) /\
       after_scan chatId (w, world)
       = {| address := address w; name := name w; lastHash := currentHash trade |}.
Proof.
  intros Hstore. unfold after_scan. cbn [fst snd].
  unfold scan_wallet, try_wallet, store. rewrite Hstore.
  destruct (fetched world) as [[| |[|[trade|] rest]]|e]; cbn [fst snd fold_left app touched];
    try (left; split; [done|]; intros c t Hin;
         (by apply elem_of_nil in Hin) || (by apply list_elem_of_singleton in Hin)).
  destruct (changed w (currentHash trade)).
  - right. exists trade, rest. split; [done|].
    destruct (is_trade trade); cbn [fst snd fold_left app touched];
      unfold touch; by rewrite String.eqb_refl.
  - destruct (negb (truthy (lastHash w))); cbn [fst snd fold_left app touched].
    + right. exists trade, rest. split; [done|].
      unfold touch. by rewrite String.eqb_refl.
    + left. split; [done|]. intros c t Hin. by apply elem_of_nil in Hin.
Qed.

(** Once the write of its scan is stored, the same record raises no
    alert. *)
Lemma rescan_is_silent v c t :
  updateOne v.2 = OK tt ->
  SendMessage c t ∉ (scan_wallet chatId (after_scan chatId v) v.2).1.
Proof.
  destruct v as [w world]. cbn [fst snd]. intros Hstore.
  destruct (after_scan_cases w world Hstore) as [[-> Hquiet]|(trade & rest & Hfetch & ->)].
  - apply Hquiet.
  - unfold scan_wallet, try_wallet, store. rewrite Hfetch, Hstore.
    assert (changed {| address := address w; name := name w;
                       lastHash := currentHash trade |} (currentHash trade) = false)
      as ->.
    { unfold changed. cbn [lastHash]. destruct (currentHash trade) as [c0|]; [|done].
      by rewrite String.eqb_refl, andb_false_r. }
    cbn [lastHash]. destruct (negb (truthy (currentHash trade))); cbn.
    + by intros [=]%list_elem_of_singleton.
    + by intros ?%elem_of_nil.
Qed.

End OnePass.

Lemma visits_wallets (worlds : nat -> World) (wallets : list Wallet) :
  map fst (imap (fun i w => (w, worlds i)) wallets) = wallets.
Proof.
  revert worlds. induction wallets as [|w wallets IH]; intros worlds; [done|].
  cbn [imap map fst]. f_equal. apply (IH (worlds ∘ S)).
Qed.

Lemma visits_again {A} (f : Wallet * World -> A) (g : A * World -> A * World)
    (worlds : nat -> World) (wallets : list Wallet) :
  imap (fun i a => (a, worlds i)) (map f (imap (fun i w => (w, worlds i)) wallets))
  = map (fun v => (f v, v.2)) (imap (fun i w => (w, worlds i)) wallets).
Proof.
  clear g. revert worlds. induction wallets as [|w wallets IH]; intros worlds; [done|].
  cbn [imap map fst snd]. f_equal. apply (IH (worlds ∘ S)).
Qed.

(** X12. A pass that changes nothing upstream is not reported twice: when
    the wallets of the document have distinct addresses, the store accepts
    the writes and every record upstream carries a fingerprint (so that
    there is one to store), a second pass over the updated document, with
    the same answers from upstream, sends no message. *)
Theorem second_pass_is_silent `{NumberFormat} wallets worlds chatId effects :
  NoDup (map address wallets) ->
  (forall i, updateOne (worlds i) = OK tt) ->
  (forall i trade rest,
     fetched (worlds i) = OK (Records (Some trade :: rest)) ->
     is_Some (currentHash trade)) ->
  scanSpecificWallets (OK (Some wallets)) worlds chatId false = OK effects ->
  exists again,
    scanSpecificWallets (OK (Some (stored_after wallets effects))) worlds chatId false
    = OK again /\
    forall c t, SendMessage c t ∉ again.
Proof.
  intros Hnd Hstore _ Hpass.
  destruct wallets as [|w0 wallets].
  { injection Hpass as <-. exists []. split; [done|].
    intros c t Hin. by apply elem_of_nil in Hin. }
  unfold scanSpecificWallets in Hpass. cbn [JS.bind] in Hpass.
  rewrite scan_loop_effects in Hpass. cbn [andb] in Hpass.
  rewrite app_nil_r in Hpass. injection Hpass as <-.
  set (visits := imap (fun i w => (w, worlds i)) (w0 :: wallets)).
  assert (stored_after (w0 :: wallets)
            (flat_map (fun v => (scan_wallet chatId v.1 v.2).1) visits)
          = map (after_scan chatId) visits) as Hdoc.
  { rewrite <- (visits_wallets worlds (w0 :: wallets)) at 1. fold visits.
    apply stored_after_pass.
    rewrite <- (map_map fst address). unfold visits. by rewrite visits_wallets. }
  change (exists again,
            scanSpecificWallets
              (OK (Some (stored_after (w0 :: wallets)
                           (flat_map (fun v => (scan_wallet chatId v.1 v.2).1) visits))))
              worlds chatId false = OK again /\
            forall c t, SendMessage c t ∉ again).
  rewrite Hdoc.
  exists (flat_map (fun v => (scan_wallet chatId v.1 v.2).1)
            (map (fun v => (after_scan chatId v, v.2)) visits)).
  split.
  - unfold scanSpecificWallets. cbn [JS.bind].
    destruct (map (after_scan chatId) visits) as [|w1 rest] eqn:Hmap; [done|].
    rewrite <- Hmap. rewrite scan_loop_effects. cbn [andb]. rewrite app_nil_r.
    unfold visits. by rewrite (visits_again (after_scan chatId) id).
  - intros c t [v' [Hv' Hin]]%list_elem_of_In%in_flat_map.
    apply in_map_iff in Hv' as (v & <- & Hv). cbn [fst snd] in Hin.
    apply list_elem_of_In in Hin. revert Hin. apply rescan_is_silent.
    unfold visits in Hv. apply list_elem_of_In, list_elem_of_lookup in Hv as [i Hi].
    rewrite list_lookup_imap in Hi.
    destruct ((w0 :: wallets) !! i) as [w|]; [|done]. injection Hi as <-.
    apply Hstore.
Qed.

Lemma second_pass_is_silent_witness :
  exists again,
    scanSpecificWallets
      (OK (Some (stored_after [whale_wallet (Some "tx1")]
                   [SendMessage "chat"
                      (alert_text (whale_wallet (Some "tx1"))
                         (activity (Some "tx2") None "TRADE"));
                    UpdateLastHash "chat" "0xabc" (Some "tx2")])))
      (fun _ => answering (activity (Some "tx2") None "TRADE")) "chat" false
    = OK again /\
    forall c t, SendMessage c t ∉ again.
Proof.
  apply (second_pass_is_silent [whale_wallet (Some "tx1")]).
  - repeat constructor. by intros ?%elem_of_nil.
  - done.
  - intros _ trade rest [= <- _]. by eexists.
  - reflexivity.
Defined.

(** When the write is refused the fingerprint stays, and the next pass
    reports the same trade again. *)
Example refused_write_repeats_alert :
  let world := {| fetched := OK (Records [Some (activity (Some "tx2") None "TRADE")]);
                  updateOne := Throw (Rejected "store unavailable") |} in
  let pass stored := scanSpecificWallets (OK (Some stored)) (fun _ => world) "chat" false in
  let alert := SendMessage "chat" (alert_text (whale_wallet (Some "tx1"))
                                     (activity (Some "tx2") None "TRADE")) in
  pass [whale_wallet (Some "tx1")]
    = OK [alert; ConsoleError "Error scanning wallet Moby"] /\
  stored_after [whale_wallet (Some "tx1")]
    [alert; ConsoleError "Error scanning wallet Moby"] = [whale_wallet (Some "tx1")].
Proof. split; reflexivity. Qed.

Lemma set_lastHash_shadowed addr hash wallets i j wi wj :
  (i < j)%nat ->
  wallets !! i = Some wi -> wallets !! j = Some wj ->
  address wi = address wj ->
  set_lastHash addr hash wallets !! j = Some wj.
Proof.
  revert i j. induction wallets as [|w wallets IH]; intros i j Hij Hi Hj Heq; [done|].
  destruct j as [|j]; [lia|]. cbn [set_lastHash].
  destruct (String.eqb_spec (address w) addr) as [Hw|Hw]; [done|].
  destruct i as [|i].
  - injection Hi as ->. cbn in Hj |- *.
    clear IH Hij. revert j Hj.
    induction wallets as [|w' wallets IH]; intros j Hj; [done|].
    cbn [set_lastHash].
    destruct (String.eqb_spec (address w') addr) as [Hw'|Hw'].
    + destruct j as [|j]; [|done]. injection Hj as ->. congruence.
    + destruct j as [|j]; [done|]. cbn in Hj |- *. by apply IH.
  - cbn in Hi, Hj |- *. apply (IH i j); [lia|done..].
Qed.

(** X13. Nothing keeps an address from being registered twice, and the
    positional write reaches the first wallet of an address only: a wallet
    that stands behind another one of the same address is never written,
    whatever the passes do, and if it has no fingerprint it never raises an
    alert. *)
Theorem shadowed_wallet_never_syncs `{NumberFormat} wallets effects i j wi wj :
  (i < j)%nat ->
  wallets !! i = Some wi -> wallets !! j = Some wj ->
  address wi = address wj ->
  stored_after wallets effects !! j = Some wj
  /\ (truthy (lastHash wj) = false ->
      forall chatId world c t, SendMessage c t ∉ (scan_wallet chatId wj world).1).
Proof.
  intros Hij Hi Hj Heq. split.
  - unfold stored_after.
    assert (exists wi', wallets !! i = Some wi' /\ address wi' = address wj)
      as Hfirst by eauto.
    clear wi Hi Heq. revert wallets Hfirst Hj.
    induction effects as [|e effects IH]; intros wallets Hfirst Hj; [done|].
    cbn [fold_left]. destruct Hfirst as (wi & Hi & Heq).
    apply IH.
    + destruct e as [| c a h |]; cbn [apply_effect]; [by eauto| |by eauto].
      pose proof (set_lastHash_addresses a h wallets) as Haddr.
      assert (map address (set_lastHash a h wallets) !! i = Some (address wi)) as Hai.
      { rewrite Haddr, list_lookup_fmap. by rewrite Hi. }
      rewrite list_lookup_fmap in Hai.
      destruct (set_lastHash a h wallets !! i) as [wi'|]; [|done].
      injection Hai as Hai. exists wi'. split; [done|congruence].
    + destruct e as [| c a h |]; cbn [apply_effect]; [done| |done].
      by apply (set_lastHash_shadowed a h wallets i j wi wj).
  - intros Hnone chatId world c t.
    unfold scan_wallet, try_wallet, store.
    assert (forall current, changed wj current = false) as Hch.
    { intros current. unfold changed. unfold truthy in Hnone.
      destruct (lastHash wj); [|done]. by rewrite Hnone. }
    destruct (fetched world) as [[| |[|[trade|] rest]]|e]; cbn;
      try (by intros ?%elem_of_nil); try (by intros [=]%list_elem_of_singleton).
    rewrite Hch, Hnone. cbn.
    destruct (updateOne world); cbn.
    + by intros [=]%list_elem_of_singleton.
    + by intros [=]%list_elem_of_singleton.
Qed.

Lemma shadowed_wallet_never_syncs_witness :
  stored_after [whale_wallet (Some "tx1"); whale_wallet None]
    [UpdateLastHash "chat" "0xabc" (Some "tx2")] !! 1%nat
  = Some (whale_wallet None).
Proof.
  refine (proj1 (shadowed_wallet_never_syncs
                   [whale_wallet (Some "tx1"); whale_wallet None] _ 0 1
                   (whale_wallet (Some "tx1")) (whale_wallet None) _ _ _ _));
    [lia | reflexivity..].
Defined.

(** X14. The periodic loop over the users has no [catch] of its own: when
    reading one user's document fails, the scan of that user rejects and
    the users after it are not scanned in that tick; what was done for the
    users before stays done. *)
Theorem failed_read_ends_the_tick `{NumberFormat} before chatId e worlds after :
  Forall (fun u => exists doc, u.1.2 = OK doc) before ->
  watch_loop (before ++ (chatId, Throw e, worlds) :: after)
  = ((watch_loop before).1, Some e)
  /\ (watch_loop before).2 = None.
Proof.
  induction 1 as [|[[c f] w] before [doc Hdoc] _ IH]; cbn [app watch_loop].
  - done.
  - cbn [fst snd] in Hdoc. subst f. destruct IH as [IH1 IH2].
    destruct (scanSpecificWallets (OK doc) w c false) as [effects|e'] eqn:Hscan.
    + rewrite IH1. destruct (watch_loop before) as [later raised].
      cbn [fst snd] in *. by subst raised.
    + unfold scanSpecificWallets in Hscan. cbn [JS.bind] in Hscan.
      destruct doc as [[|w0 ws]|]; try done.
      by destruct (scan_loop c _ false).
Qed.

Lemma failed_read_ends_the_tick_witness :
  watch_loop
    ([("chat", OK (Some [whale_wallet None]),
       fun _ => answering (activity (Some "tx1") None "TRADE"))]
     ++ ("other", Throw (Rejected "store unavailable"), fun _ => unreachable)
     :: [("late", OK (Some [whale_wallet (Some "tx1")]),
          fun _ => answering (activity (Some "tx2") None "TRADE"))])
  = ([UpdateLastHash "chat" "0xabc" (Some "tx1")],
     Some (Rejected "store unavailable")).
Proof.
  refine (proj1 (failed_read_ends_the_tick _ "other" _ _ _ _)).
  repeat constructor. by eexists.
Defined.

End PassFacts.


(** ** The chat interface *)
Module ChatFacts.
Import Tracker Passes Chat ChatSamples Samples TextReference Reference.

Lemma prefix_append (p s : string) : String.prefix p (p +:+ s) = true.
Proof.
  induction p as [|a p IH]; [by destruct s|].
  change (String.prefix (String a p) (String a (p +:+ s)) = true).
  cbn [String.prefix]. by destruct (ascii_dec a a).
Qed.

Lemma skip_append (p s : string) : skip (String.length p) (p +:+ s) = s.
Proof.
  induction p as [|a p IH]; [by destruct s|].
  change (skip (S (String.length p)) (String a (p +:+ s)) = s). by cbn [skip].
Qed.

(** Taking the first occurrence of a prefix away gives the rest back, also
    when the rest contains the prefix again. *)
Lemma replace_prefix (p s : string) : replace (p +:+ s) p "" = s.
Proof.
  destruct (p +:+ s) as [|c r] eqn:E; cbn [replace].
  - destruct p; [|done]. by destruct s.
  - rewrite <- E, prefix_append, skip_append. done.
Qed.

Lemma stored_after_addresses wallets effects :
  map address (stored_after wallets effects) = map address wallets.
Proof.
  unfold stored_after. revert wallets.
  induction effects as [|e effects IH]; intros wallets; [done|].
  cbn [fold_left]. rewrite IH.
  destruct e; cbn [apply_effect]; [done| |done]. apply PassFacts.set_lastHash_addresses.
Qed.

Lemma stored_after_length wallets effects :
  length (stored_after wallets effects) = length wallets.
Proof.
  rewrite <- (length_map address), stored_after_addresses. apply length_map.
Qed.

Lemma scan_of_document `{NumberFormat} user worlds chatId isManual :
  exists effects, scanSpecificWallets (OK user) worlds chatId isManual = OK effects.
Proof.
  unfold scanSpecificWallets. cbn [JS.bind].
  destruct user as [[|w ws]|]; eauto.
  destruct (scan_loop chatId _ false). eauto.
Qed.

Section Handlers.
Context `{StringOps} `{NumberFormat}.

(** What [commands] leaves behind: the conversations as they were, and the
    watchlist of the chat rewritten by the scan at most. *)
Lemma commands_spec s chatId text worlds :
  exists s' actions,
    commands s chatId text worlds = OK (s', actions) /\
    userState s' = userState s /\
    (users s' = users s \/
     exists wallets effects,
       users s !! chatId = Some wallets /\
       users s' = <[chatId := stored_after wallets effects]> (users s)).
Proof.
  unfold commands.
  destruct (String.eqb text VIEW_WATCHLIST && _); [by eauto 6|].
  destruct (String.eqb text SCAN_MY_LIST).
  - destruct (scan_of_document (users s !! chatId) worlds chatId true) as [effects ->].
    cbn [JS.bind]. do 2 eexists. split; [reflexivity|]. split; [done|].
    cbn [users]. destruct (users s !! chatId) as [wallets|]; eauto.
  - cbn [JS.bind]. eauto 6.
Qed.

Lemma name_given_users s chatId address text :
  users (name_given s chatId address text).1 = users s \/
  ((length (default [] (users s !! chatId)) < 5)%nat /\
   users (name_given s chatId address text).1
   = <[chatId := default [] (users s !! chatId) ++ [mkWallet address text None]]>
       (users s)).
Proof.
  unfold name_given.
  destruct (Nat.leb_spec 5 (length (default [] (users s !! chatId)))); cbn; eauto.
Qed.

Lemma pull_lookup chatId address users chatId' :
  pull chatId address users !! chatId'
  = if decide (chatId = chatId')
    then List.filter (fun w => negb (String.eqb (Tracker.address w) address))
           <$> users !! chatId'
    else users !! chatId'.
Proof.
  unfold pull. destruct (decide (chatId = chatId')) as [->|Hne].
  - destruct (users !! chatId') as [ws|] eqn:E; [by rewrite lookup_insert_eq|by rewrite E].
  - destruct (users !! chatId); [by rewrite lookup_insert_ne|done].
Qed.

Lemma coherent_insert s chatId c :
  coherent s ->
  (step c = Some WAITING_FOR_NAME -> is_Some (tempAddress c)) ->
  forall users', coherent {| userState := <[chatId := c]> (userState s); users := users' |}.
Proof.
  intros Hs Hc users' k c'. cbn [userState].
  destruct (decide (chatId = k)) as [->|Hne].
  - rewrite lookup_insert_eq. by intros [= <-].
  - rewrite lookup_insert_ne by done. apply Hs.
Qed.

Lemma within_limit_insert s chatId wallets :
  within_limit s -> (length wallets <= 5)%nat ->
  forall state', within_limit {| userState := state';
                                 users := <[chatId := wallets]> (users s) |}.
Proof.
  intros Hs Hw state' k ws. cbn [users].
  destruct (decide (chatId = k)) as [->|Hne].
  - rewrite lookup_insert_eq. by intros [= <-].
  - rewrite lookup_insert_ne by done. apply Hs.
Qed.

(** One event keeps the session coherent and within the limit, and the
    handler stays within what the model represents. *)
Lemma handle_keeps s e :
  coherent s -> within_limit s ->
  handle s e <> OK None /\ coherent (after s e) /\ within_limit (after s e).
Proof.
  intros Hco Hlim. unfold after.
  destruct e as [chat [text|] worlds | id [data|] chat mid]; cbn [handle on_message].
  2: done.
  3: done.
  - destruct (startsWith text "/"); [done|].
    set (chatId := pretty chat).
    set (c := default idle (userState s !! chatId)).
    assert (step c = Some WAITING_FOR_NAME -> is_Some (tempAddress c)) as Hc.
    { unfold c. destruct (userState s !! chatId) as [c0|] eqn:E; cbn; [by apply (Hco chatId)|done]. }
    assert (coherent (with_conversation s chatId c)) as Hco1 by by apply coherent_insert.
    assert (within_limit (with_conversation s chatId c)) as Hlim1 by done.
    destruct (String.eqb text ADD_WALLET).
    { split; [done|]. split; [|done]. by apply coherent_insert. }
    destruct (step c) as [[]|] eqn:Hstep.
    + split; [done|]. split; [|done]. by apply coherent_insert.
    + destruct (Hc eq_refl) as [address ->]. cbn [option_map].
      split; [done|]. unfold name_given.
      destruct (Nat.leb_spec 5 (length (default [] (users (with_conversation s chatId c) !! chatId)))).
      * split; [by apply coherent_insert|done].
      * split; [by apply coherent_insert|]. apply within_limit_insert; [done|].
        rewrite length_app. cbn [length]. lia.
    + destruct (commands_spec (with_conversation s chatId c) chatId text worlds)
        as (s' & actions & -> & Hstate & Husers). cbn [JS.bind].
      split; [done|]. split.
      * intros k c'. rewrite Hstate. apply Hco1.
      * destruct Husers as [Hsame|(wallets & effects & Hws & Hnew)].
        { intros k ws. rewrite Hsame. apply Hlim1. }
        { intros k ws. rewrite Hnew.
          destruct (decide (chatId = k)) as [<-|Hne].
          - rewrite lookup_insert_eq. intros [= <-]. rewrite stored_after_length.
            by apply (Hlim1 chatId).
          - rewrite lookup_insert_ne by done. apply Hlim1. }
  - unfold on_callback_query. destruct (startsWith data "DEL_"); cbn [JS.bind]; [|done].
    split; [done|]. split; [done|].
    intros k ws. cbn [users]. rewrite pull_lookup.
    destruct (decide (pretty chat = k)); [|apply Hlim].
    destruct (users s !! k) as [ws0|] eqn:E; [|done]. cbn. intros [= <-].
    pose proof (Hlim k ws0 E). pose proof (filter_length_le
      (fun w => negb (String.eqb (address w) (replace data "DEL_" ""))) ws0). 
    etrans; [|done]. done.
Qed.

End Handlers.

Lemma scan_wallet_targets `{NumberFormat} chatId w world c t :
  SendMessage c t ∈ (scan_wallet chatId w world).1 -> c = chatId.
Proof.
  unfold scan_wallet, try_wallet, store.
  destruct (fetched world) as [[| |[|[trade|] rest]]|e]; cbn;
    try (by intros ?%elem_of_nil); try (by intros [=]%list_elem_of_singleton).
  destruct (changed w (currentHash trade)), (is_trade trade),
    (negb (truthy (lastHash w))), (updateOne world); cbn;
    rewrite ?elem_of_cons, ?elem_of_nil; intros Hin;
    repeat match goal with
           | Hx : _ \/ _ |- _ => destruct Hx as [Hx|Hx]
           | Hx : SendMessage _ _ = _ |- _ => injection Hx as -> _
           | Hx : False |- _ => destruct Hx
           end; congruence.
Qed.

Lemma scan_targets `{NumberFormat} user worlds chatId isManual effects c t :
  scanSpecificWallets (OK user) worlds chatId isManual = OK effects ->
  SendMessage c t ∈ effects -> c = chatId.
Proof.
  unfold scanSpecificWallets. cbn [JS.bind].
  assert (forall l, SendMessage c t ∈ (if isManual then [SendMessage chatId l] else [])
                    -> c = chatId) as Hman.
  { intros l. destruct isManual; [|by intros ?%elem_of_nil].
    by intros [= -> _]%list_elem_of_singleton. }
  destruct user as [[|w ws]|].
  - intros [= <-]. apply Hman.
  - rewrite TrackerFacts.scan_loop_effects.
    generalize (imap (fun i w => (w, worlds i)) (w :: ws)). intros visits [= <-].
    rewrite elem_of_app. intros [Hin|Hin].
    + apply list_elem_of_In, in_flat_map in Hin as (v & _ & Hin).
      by apply list_elem_of_In, scan_wallet_targets in Hin.
    + destruct (isManual && _); [|by apply elem_of_nil in Hin].
      by apply list_elem_of_singleton in Hin as [= -> _].
  - intros [= <-]. apply Hman.
Qed.

Section Conversations.
Context `{StringOps} `{NumberFormat}.

Lemma run_keeps events : forall s,
  coherent s -> within_limit s ->
  coherent (fold_left after events s) /\ within_limit (fold_left after events s).
Proof.
  induction events as [|e events IH]; intros s Hco Hlim; [done|].
  cbn [fold_left]. destruct (handle_keeps s e Hco Hlim) as (_ & Hco' & Hlim').
  by apply IH.
Qed.

(** X15. However the messages and button presses arrive, one after the
    other, no watchlist grows beyond five wallets; and a conversation that
    waits for a name always has its address, so that every wallet stored
    has one. *)
Theorem watchlist_limit_holds s events :
  coherent s -> within_limit s ->
  let s' := fold_left after events s in
  within_limit s' /\ coherent s' /\ forall e, handle s' e <> OK None.
Proof.
  intros Hco Hlim s'. destruct (run_keeps events s Hco Hlim) as [Hco' Hlim'].
  split; [done|]. split; [done|]. intros e. by apply handle_keeps.
Qed.

Lemma not_add_wallet text : text <> ADD_WALLET -> String.eqb text ADD_WALLET = false.
Proof. intros Hne. by apply String.eqb_neq. Qed.

(** X16. The add-wallet flow, from whatever the conversation was doing:
    after the button, any text that is no command and not the button
    itself is taken as the address, the next such text as the name, and
    with fewer than five wallets listed the wallet is appended with the
    trimmed address, whether or not that address is already listed; the
    conversation is over afterwards. *)
Theorem add_flow_appends s chat address name w1 w2 w3 :
  startsWith address "/" = false -> address <> ADD_WALLET ->
  startsWith name "/" = false -> name <> ADD_WALLET ->
  let chatId := pretty chat in
  let listed := default [] (users s !! chatId) in
  (length listed < 5)%nat ->
  let asked := fold_left after [Message chat (Some ADD_WALLET) w1;
                                Message chat (Some address) w2] s in
  let s' := after asked (Message chat (Some name) w3) in
  users s' = <[chatId := listed ++ [mkWallet (trim address) name None]]> (users s)
  /\ userState s' !! chatId = Some idle
  /\ replies asked (Message chat (Some name) w3)
     = say chatId ("✅ **Added!**" +:+ nl +:+ "Now tracking: **" +:+ name +:+ "**").
Proof.
  intros Ha1 Ha2%not_add_wallet Hn1 Hn2%not_add_wallet chatId listed Hlen asked s'.
  assert (asked = {| userState := <[chatId := {| step := Some WAITING_FOR_NAME;
                                                tempAddress := Some (trim address) |}]>
                                   (userState s);
                     users := users s |}) as Hasked.
  { unfold asked. cbn [fold_left]. unfold after at 2. cbn [handle on_message].
    change (startsWith ADD_WALLET "/") with false. cbn match.
    rewrite String.eqb_refl. unfold after. cbn [handle on_message].
    rewrite Ha1, Ha2. fold chatId. unfold with_conversation. cbn [userState users].
    rewrite !lookup_insert_eq. cbn [default step]. rewrite !insert_insert_eq. done. }
  assert (handle asked (Message chat (Some name) w3)
          = OK (Some ({| userState := <[chatId := idle]> (userState s);
                         users := <[chatId := listed ++ [mkWallet (trim address) name None]]>
                                    (users s) |},
                      say chatId ("✅ **Added!**" +:+ nl +:+ "Now tracking: **"
                                  +:+ name +:+ "**")))) as Hlast.
  { rewrite Hasked. cbn [handle on_message]. rewrite Hn1, Hn2. fold chatId.
    cbn [userState]. rewrite lookup_insert_eq. cbn [default step tempAddress option_map].
    unfold name_given, with_conversation. cbn [userState users]. fold listed.
    destruct (Nat.leb_spec 5 (length listed)); [lia|].
    by rewrite !insert_insert_eq. }
  unfold s', replies, after. rewrite Hlast. cbn [users userState].
  by rewrite lookup_insert_eq.
Qed.

(** X17. The buttons of the watchlist carry the address of their wallet,
    and pressing one pulls every wallet of that address from the list,
    also one listed under another name; the other wallets stay, in their
    order. *)
Theorem remove_button_pulls_address s chat wallets w worlds id message_id :
  users s !! pretty chat = Some wallets ->
  w ∈ wallets ->
  step (default idle (userState s !! pretty chat)) = None ->
  replies s (Message chat (Some VIEW_WATCHLIST) worlds)
  = [SendKeyboard (pretty chat) "📋 **Your Watchlist:**" (map remove_button wallets)]
  /\ forall b, b ∈ remove_button w ->
       users (after s (CallbackQuery id (Some (callback_data b)) chat message_id))
       = <[pretty chat := List.filter
                            (fun v => negb (String.eqb (Tracker.address v)
                                                       (Tracker.address w)))
                            wallets]> (users s).
Proof.
  intros Hdoc Hin Hidle. split.
  - unfold replies. cbn [handle on_message].
    change (startsWith VIEW_WATCHLIST "/") with false. cbn match.
    change (String.eqb VIEW_WATCHLIST ADD_WALLET) with false. cbn match.
    rewrite Hidle. unfold commands, with_conversation. cbn [users].
    rewrite Hdoc, String.eqb_refl.
    change (String.eqb VIEW_WATCHLIST SCAN_MY_LIST) with false.
    change (String.eqb VIEW_WATCHLIST HELP) with false.
    destruct wallets as [|w0 ws]; [by apply elem_of_nil in Hin|].
    cbn [andb JS.bind default]. by rewrite app_nil_r.
  - intros b ->%list_elem_of_singleton. cbn [callback_data].
    unfold after. cbn [handle on_callback_query].
    unfold startsWith. rewrite prefix_append, replace_prefix. cbn [JS.bind users].
    unfold pull. by rewrite Hdoc.
Qed.

(** X18. A message or a button press of one chat changes neither the
    conversation nor the watchlist of another chat, and every message the
    bot sends in return goes to the chat the event came from. *)
Theorem other_chats_untouched s e :
  (forall chat, chat <> chat_of e ->
     userState (after s e) !! pretty chat = userState s !! pretty chat
     /\ users (after s e) !! pretty chat = users s !! pretty chat)
  /\ (forall c t, Effect (SendMessage c t) ∈ replies s e -> c = pretty (chat_of e)).
Proof.
  assert (forall c t chatId l, Effect (SendMessage c t) ∈ say chatId l -> c = chatId)
    as Hsay.
  { intros c t chatId l Hin. by apply list_elem_of_singleton in Hin as [= -> _]. }
  unfold after, replies.
  destruct e as [from [text|] worlds | id [data|] from mid];
    cbn [handle on_message chat_of].
  2, 4: by split; [|intros c t ?%elem_of_nil].
  - destruct (startsWith text "/"); [by split; [|intros c t ?%elem_of_nil]|].
    set (chatId := pretty from).
    set (c0 := default idle (userState s !! chatId)).
    assert (forall chat : Z, chat <> from -> chatId <> pretty chat) as Hother.
    { intros chat Hne Heq. apply Hne. symmetry. by apply (inj pretty). }
    destruct (String.eqb text ADD_WALLET).
    { split; [|intros c t; apply Hsay]. intros chat Hne%Hother. unfold with_conversation in *; cbn [userState users].
      by rewrite !lookup_insert_ne. }
    destruct (step c0) as [[]|].
    + split; [|intros c t; apply Hsay]. intros chat Hne%Hother.
      unfold with_conversation in *; cbn [userState users]. by rewrite !lookup_insert_ne.
    + destruct (tempAddress c0) as [address|]; cbn [option_map];
        [|by split; [|intros c t ?%elem_of_nil]].
      unfold name_given.
      destruct (5 <=? _)%nat; (split; [|intros c t; apply Hsay]); intros chat Hne%Hother;
        unfold with_conversation in *; cbn [userState users]; by rewrite !lookup_insert_ne.
    + unfold commands. unfold with_conversation; cbn [users].
      destruct (String.eqb text VIEW_WATCHLIST && _).
      { cbn [JS.bind]. split; [|intros c t; apply Hsay]. intros chat Hne%Hother.
        unfold with_conversation in *; cbn [userState users]. by rewrite !lookup_insert_ne. }
      assert (forall c t,
                Effect (SendMessage c t)
                  ∈ (if String.eqb text VIEW_WATCHLIST
                     then [SendKeyboard chatId "📋 **Your Watchlist:**"
                             (map remove_button (default [] (users s !! chatId)))]
                     else []) -> False) as Hview.
      { intros c t. destruct (String.eqb text VIEW_WATCHLIST).
        - by intros [=]%list_elem_of_singleton.
        - by intros ?%elem_of_nil. }
      assert (forall c t,
                Effect (SendMessage c t)
                  ∈ (if String.eqb text HELP then say chatId helpMsg else [])
                -> c = chatId) as Hhelp.
      { intros c t. destruct (String.eqb text HELP); [apply Hsay|by intros ?%elem_of_nil]. }
      destruct (String.eqb text SCAN_MY_LIST).
      * destruct (scan_of_document (users s !! chatId) worlds chatId true)
          as [effects Hscan]. rewrite Hscan. cbn [JS.bind]. split.
        { intros chat Hne%Hother. unfold with_conversation in *; cbn [userState users].
          rewrite lookup_insert_ne by done.
          destruct (users s !! chatId); [by rewrite lookup_insert_ne|done]. }
        { intros c t. rewrite !elem_of_app. intros [Hin|[[Hin|Hin]|Hin]].
          - by destruct (Hview c t).
          - by apply Hsay in Hin.
          - apply list_elem_of_fmap in Hin as (e & [= <-] & Hin).
            eapply scan_targets; [exact Hscan|done].
          - by apply (Hhelp c t). }
      * cbn [JS.bind]. split.
        { intros chat Hne%Hother. unfold with_conversation in *; cbn [userState users]. by rewrite lookup_insert_ne. }
        { intros c t. rewrite !elem_of_app. intros [Hin|[Hin|Hin]].
          - by destruct (Hview c t).
          - by apply elem_of_nil in Hin.
          - by apply (Hhelp c t). }
  - unfold on_callback_query. destruct (startsWith data "DEL_"); cbn [JS.bind].
    + split.
      * intros chat Hne. unfold with_conversation in *; cbn [userState users]. split; [done|].
        rewrite pull_lookup. destruct (decide (pretty from = pretty chat)) as [Heq|]; [|done].
        apply (inj pretty) in Heq. congruence.
      * intros c t. rewrite !elem_of_cons, elem_of_nil. by intros [|[|]].
    + by split; [|intros c t ?%elem_of_nil].
Qed.

End Conversations.


Lemma watchlist_limit_holds_witness :
  within_limit
    (fold_left after
       [Message 42 (Some ADD_WALLET) quiet; Message 42 (Some " 0x123 ") quiet;
        Message 42 (Some "Queequeg") quiet; CallbackQuery "q1" (Some "DEL_0xdef") 42 7]
       twice_listed).
Proof.
  refine (proj1 (watchlist_limit_holds twice_listed _ _ _)).
  - intros k c. cbn. by rewrite lookup_empty.
  - intros k ws Hk. unfold twice_listed in Hk. cbn [users] in Hk.
    apply lookup_singleton_Some in Hk as [_ <-]. cbn [length]. lia.
Defined.

Lemma add_flow_appends_witness :
  let asked := fold_left after [Message 42 (Some ADD_WALLET) quiet;
                                Message 42 (Some VIEW_WATCHLIST) quiet] twice_listed in
  users (after asked (Message 42 (Some HELP) quiet))
  = <["42" := default [] (users twice_listed !! "42")
              ++ [mkWallet VIEW_WATCHLIST HELP None]]> (users twice_listed).
Proof.
  refine (proj1 (add_flow_appends twice_listed 42 VIEW_WATCHLIST HELP quiet quiet quiet
                   _ _ _ _ _)).
  - reflexivity.
  - by vm_compute.
  - reflexivity.
  - by vm_compute.
  - vm_compute. lia.
Defined.

Lemma remove_button_pulls_address_witness :
  users (after twice_listed (CallbackQuery "q1" (Some "DEL_0xabc") 42 7))
  = <["42" := [{| address := "0xdef"; name := "Ishmael"; lastHash := None |}]]>
      (users twice_listed).
Proof.
  refine (proj2 (remove_button_pulls_address twice_listed 42
                   [whale_wallet (Some "tx1");
                    {| address := "0xabc"; name := "Ahab"; lastHash := None |};
                    {| address := "0xdef"; name := "Ishmael"; lastHash := None |}]
                   (whale_wallet (Some "tx1")) quiet "q1" 7 _ _ _)
            {| text := "🗑 Remove Moby"; callback_data := "DEL_0xabc" |} _).
  - reflexivity.
  - apply list_elem_of_here.
  - reflexivity.
  - apply list_elem_of_here.
Defined.

(** Once a wallet is listed twice, the second one is never synchronised
    and so never reported, while one press removes both. *)
Example listed_twice_through_the_chat :
  let s := fold_left after
             [Message 42 (Some ADD_WALLET) quiet; Message 42 (Some "0xabc") quiet;
              Message 42 (Some "Moby") quiet;
              Message 42 (Some ADD_WALLET) quiet; Message 42 (Some " 0xabc") quiet;
              Message 42 (Some "Ahab") quiet]
             started in
  users s !! "42" = Some [whale_wallet None;
                          {| address := "0xabc"; name := "Ahab"; lastHash := None |}]
  /\ users (after s (Message 42 (Some SCAN_MY_LIST)
                       (fun _ => answering (activity (Some "tx1") None "TRADE")))) !! "42"
     = Some [whale_wallet (Some "tx1");
             {| address := "0xabc"; name := "Ahab"; lastHash := None |}]
  /\ users (after s (CallbackQuery "q1" (Some "DEL_0xabc") 42 7)) !! "42" = Some [].
Proof. vm_compute. done. Qed.


Lemma other_chats_untouched_witness :
  users (after twice_listed (Message 7 (Some ADD_WALLET) quiet)) !! "42"
  = users twice_listed !! "42".
Proof.
  refine (proj2 (proj1 (other_chats_untouched twice_listed
                          (Message 7 (Some ADD_WALLET) quiet)) 42 _)).
  cbn. lia.
Defined.

(** A message without text (a photo, a sticker) makes the handler throw
    before it has looked at the conversation. *)
Example message_without_text_throws :
  on_message twice_listed 42 None quiet
  = Throw (TypeError "Cannot read properties of undefined (reading 'startsWith')").
Proof. reflexivity. Qed.

End ChatFacts.


(** ** The watchlist functions of the second build *)
Module WatchlistFacts.
Import Tracker Chat Watchlist TextReference.

Lemma listed_iff (wallets : list Wallet) (a : string) :
  existsb (fun w => String.eqb (address w) a) wallets = true <-> a ∈ map address wallets.
Proof.
  rewrite existsb_exists, list_elem_of_fmap. split.
  - intros (w & Hin & Heq%String.eqb_eq). exists w. by rewrite list_elem_of_In.
  - intros (w & -> & Hin). exists w. by rewrite <- list_elem_of_In, String.eqb_refl.
Qed.

Lemma filter_addresses_sublist (f : Wallet -> bool) (wallets : list Wallet) :
  map address (List.filter f wallets) `sublist_of` map address wallets.
Proof.
  induction wallets as [|w wallets IH]; cbn [List.filter map]; [done|].
  destruct (f w); cbn [map]; by constructor.
Qed.

Lemma filter_absent (wallets : list Wallet) (a : string) :
  a ∉ map address wallets ->
  List.filter (fun w => negb (String.eqb (address w) a)) wallets = wallets.
Proof.
  induction wallets as [|w wallets IH]; [done|]. cbn [map List.filter].
  rewrite not_elem_of_cons. intros [Hne Hnot].
  destruct (String.eqb_spec (address w) a) as [Heq|_]; [congruence|].
  cbn [negb]. by rewrite IH.
Qed.

Section Calls.
Context `{StringOps}.

(** What [addWallet] answers and does, by cases. *)
Lemma addWallet_cases users chatId a n :
  let wallets := getWallets users chatId in
  let clean := toLowerCase (trim a) in
  ((MAX_WALLETS <= length wallets)%nat /\
   addWallet users chatId a n = ("LIMIT_REACHED", users))
  \/ ((length wallets < MAX_WALLETS)%nat /\ (clean ∈ map address wallets) /\
      addWallet users chatId a n = ("DUPLICATE", users))
  \/ ((length wallets < MAX_WALLETS)%nat /\ (clean ∉ map address wallets) /\
      addWallet users chatId a n
      = ("SUCCESS", <[chatId := wallets ++ [mkWallet clean n None]]> users)).
Proof.
  intros wallets clean. unfold addWallet. fold clean. fold (getWallets users chatId).
  fold wallets.
  destruct (Nat.leb_spec MAX_WALLETS (length wallets)); [by left|right].
  destruct (existsb _ wallets) eqn:E.
  - left. by apply listed_iff in E.
  - right. split; [done|]. split; [|done]. intros Hin%listed_iff. congruence.
Qed.

Lemma perform_tidy users c : tidy users -> tidy (perform users c).
Proof.
  intros Htidy. destruct c as [chatId a n|chatId a]; cbn [perform].
  - assert (let wallets := getWallets users chatId in
            (length wallets <= MAX_WALLETS)%nat /\ NoDup (map address wallets)) as Hws.
    { unfold getWallets. destruct (users !! chatId) as [ws|] eqn:E; cbn.
      - by apply (Htidy chatId).
      - split; [unfold MAX_WALLETS; lia|constructor]. }
    destruct (addWallet_cases users chatId a n) as [[_ ->]|[(_ & _ & ->)|(Hlen & Hnew & ->)]];
      [done..|].
    cbn [snd]. intros k ws. destruct (decide (chatId = k)) as [<-|Hne].
    + rewrite lookup_insert_eq. intros [= <-]. rewrite length_app, map_app. cbn [length map].
      split; [lia|]. apply NoDup_app. split; [apply Hws|]. split.
      * intros x Hx ->%list_elem_of_singleton. done.
      * apply NoDup_singleton.
    + rewrite lookup_insert_ne by done. apply Htidy.
  - unfold removeWallet. destruct (users !! chatId) as [ws0|] eqn:E; [|done].
    intros k ws. destruct (decide (chatId = k)) as [<-|Hne].
    + rewrite lookup_insert_eq. intros [= <-].
      destruct (Htidy chatId ws0 E) as [Hlen Hnd]. split.
      * etrans; [apply filter_length_le|done].
      * eapply sublist_NoDup; [done|apply filter_addresses_sublist].
    + rewrite lookup_insert_ne by done. apply Htidy.
Qed.

(** X19. Whatever is added and removed through [addWallet] and
    [removeWallet], every watchlist keeps at most [MAX_WALLETS] wallets,
    and no address (trimmed and in lower case) is listed twice. *)
Theorem watchlists_stay_tidy users calls :
  tidy users -> tidy (fold_left perform calls users).
Proof.
  revert users. induction calls as [|c calls IH]; intros users Htidy; [done|].
  cbn [fold_left]. by apply IH, perform_tidy.
Qed.

(** X20. A wallet that [addWallet] has accepted is listed last under its
    cleaned address, and removing that address gives the watchlist back as
    it was. *)
Theorem add_then_remove_restores users chatId a n users' :
  addWallet users chatId a n = ("SUCCESS", users') ->
  let clean := toLowerCase (trim a) in
  getWallets users' chatId = getWallets users chatId ++ [mkWallet clean n None]
  /\ getWallets (removeWallet users' chatId clean) chatId = getWallets users chatId.
Proof.
  intros Hadd clean.
  destruct (addWallet_cases users chatId a n)
    as [[_ Heq]|[(_ & _ & Heq)|(Hlen & Hnew & Heq)]];
    rewrite Heq in Hadd; try discriminate.
  injection Hadd as <-. fold clean in Hnew |- *.
  unfold removeWallet. set (listed := getWallets users chatId) in *.
  unfold getWallets. rewrite !lookup_insert_eq. cbn [default].
  split; [done|].
  rewrite List.filter_app, (filter_absent _ _ Hnew). cbn [List.filter address].
  rewrite String.eqb_refl. cbn [negb]. apply app_nil_r.
Qed.

End Calls.

Lemma watchlists_stay_tidy_witness :
  tidy (fold_left perform
          [AddWallet "42" "  0xABC " "Moby"; AddWallet "42" "0xabc" "Ahab";
           RemoveWallet "42" "0xabc"] ∅).
Proof.
  apply (watchlists_stay_tidy ∅). intros k ws. by rewrite lookup_empty.
Defined.

Lemma add_then_remove_restores_witness :
  getWallets (removeWallet {[ "42" := [mkWallet "0xabc" "Moby" None] ]} "42" "0xabc") "42"
  = getWallets ∅ "42".
Proof.
  refine (proj2 (add_then_remove_restores ∅ "42" "  0xABC " "Moby" _ _)).
  vm_compute. reflexivity.
Defined.

(** The second spelling of a listed address is refused. *)
Example second_spelling_is_a_duplicate :
  (addWallet {[ "42" := [mkWallet "0xabc" "Moby" None] ]} "42" " 0xABC" "Ahab").1
  = "DUPLICATE".
Proof. reflexivity. Qed.

End WatchlistFacts.
